(** * Repository mirror fetcher: a shallow embedding of
    [github-copilot-interaction.py] and the properties of its recursive
    download.

    The script talks to three libraries: [requests] (HTTP), [pathlib] / [open]
    (local files) and [base64].  They are not part of the repository, so they
    enter the model as the fields of a [Platform]; everything the script
    itself does (the control flow of the class [GitHubCopilotInteraction],
    the dictionaries it builds, the exceptions its own expressions raise) is
    written out below, method by method. *)

From Stdlib Require Import String Ascii List ZArith Bool Lia DecimalString.
From Stdlib.Strings Require Import Byte.
Import ListNotations.

Open Scope string_scope.
Open Scope list_scope.
Open Scope Z_scope.

(** Python's [+] on [str] and the pieces of an f-string. *)
Infix "+++" := String.append (right associativity, at level 60).

(* ================================================================== *)
(** ** Python values that travel through the script *)

Definition bytes := list byte.

(** What [response.json()] yields.  [JFloat m e] is the double [m * 2^e]. *)
#[warnings="-register-all"]
Inductive JSON : Type :=
| JNull
| JBool (b : bool)
| JNum (z : Z)
| JFloat (m e : Z)
| JStr (s : string)
| JArr (items : list JSON)
| JObj (fields : list (string * JSON)).

(** Exceptions.  [TypeError] and [KeyError] come from the script's own
    subscripts and operators; the others are raised inside the libraries. *)
Inductive Exn : Type :=
| TypeError
| KeyError (key : string)
| RequestException (detail : string)
| JSONDecodeError
| Base64Error
| OSError (detail : string).

(** A Python [dict] with string keys and values, in insertion order. *)
Definition Headers := list (string * string).

Fixpoint dict_get {V : Type} (key : string) (d : list (string * V)) : option V :=
  match d with
  | [] => None
  | (k, v) :: rest => if String.eqb k key then Some v else dict_get key rest
  end.

(** [d[key] = v]: an existing key keeps its place, a new one goes last. *)
Fixpoint dict_set {V : Type} (key : string) (v : V) (d : list (string * V))
  : list (string * V) :=
  match d with
  | [] => [(key, v)]
  | (k, w) :: rest =>
      if String.eqb k key then (k, v) :: rest else (k, w) :: dict_set key v rest
  end.

(** [bool(v)] *)
Definition truthy (v : JSON) : bool :=
  match v with
  | JNull => false
  | JBool b => b
  | JNum z => negb (z =? 0)
  | JFloat m _ => negb (m =? 0)
  | JStr s => negb (String.eqb s "")
  | JArr items => match items with [] => false | _ => true end
  | JObj fields => match fields with [] => false | _ => true end
  end.

(** [v[key]] for a string [key] *)
Definition subscript (v : JSON) (key : string) : Exn + JSON :=
  match v with
  | JObj fields =>
      match dict_get key fields with
      | Some x => inr x
      | None => inl (KeyError key)
      end
  | _ => inl TypeError
  end.

(** [v == lit] for a string literal [lit] *)
Definition eq_str (v : JSON) (lit : string) : bool :=
  match v with
  | JStr s => String.eqb s lit
  | _ => false
  end.

(** The items that [for item in v] visits. *)
Definition iterate (v : JSON) : Exn + list JSON :=
  match v with
  | JArr items => inr items
  | JObj fields => inr (map (fun kv => JStr (fst kv)) fields)
  | JStr s => inr (map (fun c => JStr (String c "")) (list_ascii_of_string s))
  | _ => inl TypeError
  end.

(** [str(n)] for an [int] *)
Definition str_of_int (z : Z) : string := NilZero.string_of_int (Z.to_int z).

(** A [requests.Response], as far as the script looks at it. *)
Record Response : Type := mkResponse {
  status_code : Z;
  text : string;
  content : bytes;
  json : Exn + JSON
}.

(** The object built by [GitHubCopilotInteraction(username, pat_token)]. *)
Record Client : Type := mkClient {
  username : string;
  pat_token : string;
  headers : Headers;
  base_url : string
}.

Definition __init__ (username pat_token : string) : Client :=
  {| username := username;
     pat_token := pat_token;
     headers :=
       [ ("Authorization", "token " +++ pat_token);
         ("Accept", "application/vnd.github.v3+json");
         ("User-Agent", "GitHub-Copilot-Client-" +++ username) ];
     base_url := "https://api.github.com" |}.

(** The dictionaries the download returns. *)
Record FileRecord : Type := mkFileRecord {
  fr_name : string;
  fr_path : string;
  fr_size : JSON
}.

Inductive DirResult : Type :=
| ErrorResult (error : string)
| ListingResult (files : list FileRecord) (directories : list DirRecord)
with DirRecord : Type :=
| mkDirRecord (dr_name : string) (dr_path : string) (dr_contents : DirResult).

Definition dr_name (d : DirRecord) : string :=
  match d with mkDirRecord n _ _ => n end.
Definition dr_path (d : DirRecord) : string :=
  match d with mkDirRecord _ p _ => p end.
Definition dr_contents (d : DirRecord) : DirResult :=
  match d with mkDirRecord _ _ c => c end.

(** The [result] dictionary while the loop fills it. *)
Record Listing : Type := mkListing {
  files : list FileRecord;
  directories : list DirRecord
}.

Definition empty_listing : Listing := mkListing [] [].

(** What [send_copilot_query] returns. *)
Inductive CopilotResult : Type :=
| CopilotJson (body : JSON)
| CopilotError (error : string).

(* ================================================================== *)
(** ** The outside world *)

(** Every call that leaves the script is logged together with its answer. *)
Inductive Event (P : Type) : Type :=
| EvGet (url : string) (hdrs : Headers) (answer : Exn + Response)
| EvPost (url : string) (hdrs : Headers) (body : JSON) (answer : Exn + Response)
| EvMkdir (p : P) (parents exist_ok : bool) (failure : option Exn)
| EvWriteBytes (p : P) (data : bytes) (failure : option Exn)
| EvOpenRead (file : string) (answer : Exn + string)
| EvPrint (line : string).

Arguments EvGet {P}.
Arguments EvPost {P}.
Arguments EvMkdir {P}.
Arguments EvWriteBytes {P}.
Arguments EvOpenRead {P}.
Arguments EvPrint {P}.

(** The libraries.  A request is answered as a function of everything that
    happened before it, so the remote side may change between two calls. *)
Class Platform : Type := {
  Path : Type;
  FS : Type;
  Path_of : string -> Path;
  truediv : Path -> string -> Path;
  str_of_path : Path -> string;
  path_mkdir : FS -> Path -> bool -> bool -> Exn + FS;
  path_write_bytes : FS -> Path -> bytes -> Exn + FS;
  open_read : FS -> string -> Exn + string;
  requests_get : list (Event Path) -> string -> Headers -> Exn + Response;
  requests_post :
    list (Event Path) -> string -> Headers -> JSON -> Exn + Response;
  b64decode : string -> Exn + bytes;
  str_of_exn : Exn -> string
}.

(* ================================================================== *)
(** ** State, outcomes and the monad the methods run in *)

Inductive Outcome (A : Type) : Type :=
| Ret (a : A)
| Raise (e : Exn)
| OutOfFuel.

Arguments Ret {A}.
Arguments Raise {A}.
Arguments OutOfFuel {A}.

(** What Python shows for an outcome.  The recursive method runs with the
    number of nested calls of itself that the interpreter's recursion limit
    leaves room for (its fuel); a call that finds no room left ends
    [OutOfFuel], which is Python's [RecursionError].  Nothing between the
    recursive method and the caller of a fetch catches it. *)
Inductive PyException : Type :=
| Library (e : Exn)
| RecursionError.

Definition observed {A} (o : Outcome A) : A + PyException :=
  match o with
  | Ret a => inl a
  | Raise e => inr (Library e)
  | OutOfFuel => inr RecursionError
  end.

Section Machine.
Context {PF : Platform}.

Record State : Type := mkState {
  self : Client;
  fs : FS;
  trace : list (Event Path)
}.

Definition M (A : Type) : Type := State -> Outcome A * State.

Definition ret {A} (a : A) : M A := fun s => (Ret a, s).
Definition raise {A} (e : Exn) : M A := fun s => (Raise e, s).
Definition out_of_fuel {A} : M A := fun s => (OutOfFuel, s).

Definition bind {A B} (m : M A) (k : A -> M B) : M B :=
  fun s =>
    match m s with
    | (Ret a, s') => k a s'
    | (Raise e, s') => (Raise e, s')
    | (OutOfFuel, s') => (OutOfFuel, s')
    end.

(** [try: m  except Exception as e: handler e] *)
Definition try_except {A} (m : M A) (handler : Exn -> M A) : M A :=
  fun s =>
    match m s with
    | (Raise e, s') => handler e s'
    | other => other
    end.

Definition lift {A} (x : Exn + A) : M A :=
  match x with
  | inl e => raise e
  | inr a => ret a
  end.

Definition get_self : M Client := fun s => (Ret (self s), s).

Definition log (ev : Event Path) (s : State) : State :=
  {| self := self s; fs := fs s; trace := trace s ++ [ev] |}.

Definition print (line : string) : M unit :=
  fun s => (Ret tt, log (EvPrint line) s).

Definition http_get (url : string) (hdrs : Headers) : M Response :=
  fun s =>
    let answer := requests_get (trace s) url hdrs in
    let s' := log (EvGet url hdrs answer) s in
    match answer with
    | inl e => (Raise e, s')
    | inr r => (Ret r, s')
    end.

Definition http_post (url : string) (hdrs : Headers) (body : JSON) : M Response :=
  fun s =>
    let answer := requests_post (trace s) url hdrs body in
    let s' := log (EvPost url hdrs body answer) s in
    match answer with
    | inl e => (Raise e, s')
    | inr r => (Ret r, s')
    end.

Definition mkdir (p : Path) (parents exist_ok : bool) : M unit :=
  fun s =>
    match path_mkdir (fs s) p parents exist_ok with
    | inl e => (Raise e, log (EvMkdir p parents exist_ok (Some e)) s)
    | inr fs' =>
        (Ret tt,
         {| self := self s; fs := fs';
            trace := trace s ++ [EvMkdir p parents exist_ok None] |})
    end.

Definition write_bytes (p : Path) (data : bytes) : M unit :=
  fun s =>
    match path_write_bytes (fs s) p data with
    | inl e => (Raise e, log (EvWriteBytes p data (Some e)) s)
    | inr fs' =>
        (Ret tt,
         {| self := self s; fs := fs';
            trace := trace s ++ [EvWriteBytes p data None] |})
    end.

Definition read_text (file : string) : M string :=
  fun s =>
    let answer := open_read (fs s) file in
    let s' := log (EvOpenRead file answer) s in
    match answer with
    | inl e => (Raise e, s')
    | inr t => (Ret t, s')
    end.

End Machine.

Declare Scope py_scope.
Delimit Scope py_scope with py.
Notation "x <- m ;; k" := (bind m (fun x => k))
  (at level 61, m at next level, right associativity) : py_scope.
Notation "m ;;; k" := (bind m (fun _ => k))
  (at level 61, right associativity) : py_scope.
Open Scope py_scope.

(* ================================================================== *)
(** ** The methods of [GitHubCopilotInteraction] *)

Section Methods.
Context {PF : Platform}.

(** [for x in l: acc = body x acc], leaving at the first exception. *)
Fixpoint for_each {A Acc : Type} (body : A -> Acc -> M Acc) (l : list A)
  (acc : Acc) : M Acc :=
  match l with
  | [] => ret acc
  | x :: rest => acc' <- body x acc ;; for_each body rest acc'
  end.

(** [target_path / name]: [pathlib] accepts a [str] on the right. *)
Definition path_join (target_path : Path) (name : JSON) : Exn + Path * string :=
  match name with
  | JStr n => inr (truediv target_path n, n)
  | _ => inl TypeError
  end.

(** [f"{base_url}/repos/{owner}/{repo}/contents/{path}"] *)
Definition contents_url (base owner repo path : string) : string :=
  base +++ "/repos/" +++ owner +++ "/" +++ repo +++ "/contents/" +++ path.

(** [f"{path}/{name}" if path else name] *)
Definition child_path (path name : string) : string :=
  if String.eqb path "" then name else path +++ "/" +++ name.

(** ['content' in file_info and file_info['content']] on a [dict] *)
Definition has_inline_content (fields : list (string * JSON)) : bool :=
  match dict_get "content" fields with
  | Some c => truthy c
  | None => false
  end.

(** [base64.b64decode(v)]: only a [str] can be decoded. *)
Definition py_b64decode (v : JSON) : Exn + bytes :=
  match v with
  | JStr encoded => b64decode encoded
  | _ => inl TypeError
  end.

(** [requests.get(v, headers=hdrs)]: what is not a [str] is no URL. *)
Definition py_get (v : JSON) (hdrs : Headers) : M Response :=
  match v with
  | JStr url => http_get url hdrs
  | _ => raise (RequestException "invalid URL")
  end.

Definition _get_file_content (file_info : JSON) : M bytes :=
  match file_info with
  | JObj fields =>
      if has_inline_content fields then
        encoded <- lift (subscript file_info "content") ;;
        lift (py_b64decode encoded)
      else
        download_url <- lift (subscript file_info "download_url") ;;
        me <- get_self ;;
        response <- py_get download_url (headers me) ;;
        if status_code response =? 200 then ret (content response)
        else
          print ("Error downloading file: "
                 +++ str_of_int (status_code response)) ;;;
          ret []
  | _ => raise TypeError
  end.

(** The body of [for item in contents]; [recurse] is the method itself. *)
Definition process_item
  (recurse : string -> string -> string -> Path -> M DirResult)
  (owner repo path : string) (target_path : Path)
  (item : JSON) (result : Listing) : M Listing :=
  name <- lift (subscript item "name") ;;
  joined <- lift (path_join target_path name) ;;
  let item_path := fst joined in
  let n := snd joined in
  type <- lift (subscript item "type") ;;
  if eq_str type "file" then
    file_content <- _get_file_content item ;;
    write_bytes item_path file_content ;;;
    size <- lift (subscript item "size") ;;
    print ("Downloaded: " +++ str_of_path item_path) ;;;
    ret {| files := files result
                     ++ [mkFileRecord n (str_of_path item_path) size];
           directories := directories result |}
  else if eq_str type "dir" then
    mkdir item_path false true ;;;
    sub_result <- recurse owner repo (child_path path n) item_path ;;
    ret {| files := files result;
           directories := directories result
                           ++ [mkDirRecord n (str_of_path item_path) sub_result] |}
  else ret result.

(** [fuel] is the number of nested calls of the method that the
    interpreter's recursion limit leaves room for: each call uses one, and
    a call that finds none left ends [OutOfFuel], Python's
    [RecursionError] (see [observed]). *)
Fixpoint _download_directory_contents (fuel : nat) (owner repo path : string)
  (target_path : Path) : M DirResult :=
  match fuel with
  | O => out_of_fuel
  | S fuel' =>
      me <- get_self ;;
      response <- http_get (contents_url (base_url me) owner repo path)
                           (headers me) ;;
      if negb (status_code response =? 200) then
        print ("Error fetching directory contents: "
               +++ str_of_int (status_code response)) ;;;
        print (text response) ;;;
        ret (ErrorResult (text response))
      else
        contents <- lift (json response) ;;
        items <- lift (iterate contents) ;;
        result <- for_each
                    (process_item (_download_directory_contents fuel')
                                  owner repo path target_path)
                    items empty_listing ;;
        ret (ListingResult (files result) (directories result))
  end.

Definition fetch_repository (fuel : nat) (repo_owner repo_name : string)
  (target_path : option string) : M DirResult :=
  let target := match target_path with
                | None => Path_of repo_name
                | Some t => Path_of t
                end in
  mkdir target true true ;;;
  print ("Fetching repository " +++ repo_owner +++ "/" +++ repo_name +++ "...") ;;;
  _download_directory_contents fuel repo_owner repo_name "" target.

(** *** The completion query *)

Definition newline : string := String (ascii_of_nat 10) "".

(** [{**d, **extra}] *)
Definition dict_merge {V : Type} (d extra : list (string * V))
  : list (string * V) :=
  fold_left (fun acc kv => dict_set (fst kv) (snd kv) acc) extra d.

(** One turn of [for file_path in context_files], with its [try]. *)
Definition read_context_file (file_path : string) (context : string) : M string :=
  try_except
    (file_content <- read_text file_path ;;
     ret (context +++ newline +++ "# File: " +++ file_path +++ newline
                  +++ file_content +++ newline))
    (fun e =>
       print ("Error reading context file " +++ file_path +++ ": "
              +++ str_of_exn e) ;;;
       ret context).

Definition copilot_url : string := "https://api.githubcopilot.com/v1/completions".

(** [0.7] as a double *)
Definition temperature : JSON := JFloat 3152519739159347 (-52).

Definition send_copilot_query (query : string)
  (context_files : option (list string)) : M CopilotResult :=
  context <- match context_files with
             | Some (f :: rest) => for_each read_context_file (f :: rest) ""
             | _ => ret ""
             end ;;
  let request_body :=
    JObj [ ("prompt", JStr (context +++ newline +++ query));
           ("max_tokens", JNum 500);
           ("temperature", temperature) ] in
  me <- get_self ;;
  let copilot_headers :=
    dict_merge (dict_merge [] (headers me))
      [ ("Content-Type", "application/json");
        ("GitHub-Authentication", "Bearer " +++ pat_token me) ] in
  try_except
    (response <- http_post copilot_url copilot_headers request_body ;;
     if status_code response =? 200 then
       body <- lift (json response) ;;
       ret (CopilotJson body)
     else
       print ("Error from Copilot API: "
              +++ str_of_int (status_code response)) ;;;
       print (text response) ;;;
       ret (CopilotError (text response)))
    (fun e =>
       print ("Exception when calling Copilot API: " +++ str_of_exn e) ;;;
       ret (CopilotError (str_of_exn e))).

End Methods.

(* ================================================================== *)
(** ** Vocabulary of the properties *)

Section Vocabulary.
Context {PF : Platform}.

(** The [write_bytes] calls of a piece of trace: where and what. *)
Definition writes_of (evs : list (Event Path)) : list (Path * bytes) :=
  flat_map (fun ev => match ev with
                      | EvWriteBytes p data _ => [(p, data)]
                      | _ => []
                      end) evs.

(** Between [s] and [s'] exactly one [write_bytes] happened: [data] went to
    [p], and where the file system took it, [s'] holds what it made of it. *)
Definition writes_exactly (s s' : State) (p : Path) (data : bytes) : Prop :=
  exists evs,
    trace s' = trace s ++ evs /\
    writes_of evs = [(p, data)] /\
    forall fs1, path_write_bytes (fs s) p data = inr fs1 -> fs s' = fs1.

(** Does a piece of trace touch the local file system? *)
Definition touches_fs (ev : Event Path) : bool :=
  match ev with
  | EvMkdir _ _ _ _ | EvWriteBytes _ _ _ => true
  | _ => false
  end.

(** The names of the entries of a listing that are files, in listing
    order; likewise for directories. *)
Definition names_of_type (type : string) (items : list JSON) : list string :=
  flat_map (fun item =>
              match subscript item "name", subscript item "type" with
              | inr (JStr n), inr t => if eq_str t type then [n] else []
              | _, _ => []
              end) items.

(** What processing one entry of a listing into [target] adds to the
    trace when it completes.  A file: the fetch of its content, which does
    not touch the file system, then the write to [target / name] and the
    line of output.  A directory: the [mkdir] of [target / name], then all
    that the download of the directory does.  Anything else: nothing. *)
Definition entry_segment (target : Path) (item : JSON)
  (seg : list (Event Path)) : Prop :=
  match subscript item "name", subscript item "type" with
  | inr (JStr n), inr t =>
      if eq_str t "file" then
        exists fetched data,
          seg = fetched
                ++ [ EvWriteBytes (truediv target n) data None;
                     EvPrint ("Downloaded: "
                              +++ str_of_path (truediv target n)) ] /\
          forallb (fun ev => negb (touches_fs ev)) fetched = true
      else if eq_str t "dir" then
        exists inside,
          seg = EvMkdir (truediv target n) false true None :: inside
      else seg = []
  | _, _ => False
  end.

(** The listing request of remote directory [path]. *)
Definition listing_answer (history : list (Event Path)) (me : Client)
  (owner repo path : string) : Exn + Response :=
  requests_get history (contents_url (base_url me) owner repo path) (headers me).

(** The remote tree below [path] nests directories at most [depth] deep:
    whenever a listing of [path] succeeds, each of its directory entries is
    the root of a tree of depth at most [depth - 1]. *)
Fixpoint depth_bounded (depth : nat) (me : Client) (owner repo path : string)
  : Prop :=
  forall history r contents items fields n,
    listing_answer history me owner repo path = inr r ->
    status_code r = 200 ->
    json r = inr contents ->
    iterate contents = inr items ->
    In (JObj fields) items ->
    dict_get "name" fields = Some (JStr n) ->
    dict_get "type" fields = Some (JStr "dir") ->
    match depth with
    | O => False
    | S depth' => depth_bounded depth' me owner repo (child_path path n)
    end.

(** The local file system takes every write and every [mkdir]. *)
Definition fs_never_fails : Prop :=
  (forall files p data, exists files', path_write_bytes files p data = inr files')
  /\ (forall files p, exists files', path_mkdir files p false true = inr files').

(** The content of a file entry can be had: its inline text decodes, or its
    download URL is a string that the server answers. *)
Definition content_served (me : Client) (fields : list (string * JSON)) : Prop :=
  if has_inline_content fields then
    exists encoded data,
      dict_get "content" fields = Some (JStr encoded) /\
      b64decode encoded = inr data
  else
    exists url,
      dict_get "download_url" fields = Some (JStr url) /\
      forall history, exists r, requests_get history url (headers me) = inr r.

(** The server answers every listing below [path], and a listing answered
    with status 200 is a JSON array of well-formed entries: a name, a type,
    for a file a size and content that can be had, for a directory a
    subtree of the same kind, one level less deep. *)
Fixpoint well_served (depth : nat) (me : Client) (owner repo path : string)
  : Prop :=
  forall history, exists r,
    listing_answer history me owner repo path = inr r /\
    (status_code r = 200 ->
     exists items,
       json r = inr (JArr items) /\
       forall item, In item items ->
         exists fields n t,
           item = JObj fields /\
           dict_get "name" fields = Some (JStr n) /\
           dict_get "type" fields = Some t /\
           (eq_str t "file" = true ->
            (exists size, dict_get "size" fields = Some size) /\
            content_served me fields) /\
           (eq_str t "dir" = true ->
            match depth with
            | O => False
            | S depth' => well_served depth' me owner repo (child_path path n)
            end)).

(** The calls a client receives. *)
Inductive Call : Type :=
| CallFetch (repo_owner repo_name : string) (target_path : option string)
| CallDownload (owner repo path : string) (target_path : Path)
| CallGetFile (file_info : JSON)
| CallQuery (query : string) (context_files : option (list string)).

Definition perform (fuel : nat) (c : Call) (s : State) : State :=
  match c with
  | CallFetch o r t => snd (fetch_repository fuel o r t s)
  | CallDownload o r p t => snd (_download_directory_contents fuel o r p t s)
  | CallGetFile f => snd (_get_file_content f s)
  | CallQuery q c => snd (send_copilot_query q c s)
  end.

Definition perform_all (fuel : nat) (calls : list Call) (s : State) : State :=
  fold_left (fun st c => perform fuel c st) calls s.

(** [propagates m]: [m] only appends to the trace, and when one of the
    writes it makes fails, the exception of that write is what [m] ends
    with. *)
Definition propagates {A} (m : M A) : Prop :=
  forall s, exists evs,
    trace (snd (m s)) = trace s ++ evs /\
    forall p data x,
      In (EvWriteBytes p data (Some x)) evs -> fst (m s) = Raise x.

Definition keeps_self {A} (m : M A) : Prop :=
  forall s, self (snd (m s)) = self s.

(** [m] comes to an end on every state of client [me]. *)
Definition finishes {A} (me : Client) (m : M A) : Prop :=
  forall s, self s = me -> fst (m s) <> OutOfFuel.

(** [m] returns on every state of client [me]. *)
Definition returns {A} (me : Client) (m : M A) : Prop :=
  forall s, self s = me -> exists a s', m s = (Ret a, s').

End Vocabulary.

(* ================================================================== *)
(** ** Readings that the code does not bear out *)

(** A 2xx status *)
Definition success (status : Z) : bool := (200 <=? status) && (status <? 300).

(** The reading of C2 under which the error result holds the status: some
    way of reading the status off the returned dictionary works for every
    failed listing. *)
Definition error_result_carries_status : Prop :=
  exists status_of : DirResult -> Z,
    forall (PF : Platform) fuel owner repo path target_path (s : State) r,
      listing_answer (trace s) (self s) owner repo path = inr r ->
      success (status_code r) = false ->
      exists res,
        fst (_download_directory_contents (S fuel) owner repo path
               target_path s) = Ret res /\
        status_of res = status_code r.

(** The reading of C3 under which every failed request leaves its mark in
    the result: the returned dictionary tells whether some request of the
    fetch was answered with a status other than 200. *)
Definition failures_recorded_in_result : Prop :=
  exists failed_in : DirResult -> bool,
    forall (PF : Platform) fuel owner repo target (s : State) res s',
      trace s = [] ->
      fetch_repository fuel owner repo target s = (Ret res, s') ->
      (failed_in res = true <->
       exists url hdrs r,
         In (EvGet url hdrs (inr r)) (trace s') /\ status_code r <> 200).

(** C10 as stated: on a finite remote tree the download returns a result,
    given enough room for its recursion. *)
Definition finite_tree_always_returns : Prop :=
  forall (PF : Platform) depth owner repo path target (s : State),
    depth_bounded depth (self s) owner repo path ->
    exists fuel res s',
      _download_directory_contents fuel owner repo path target s
      = (Ret res, s').

(* ================================================================== *)
(** ** Vocabulary of the further properties *)

Section MoreVocabulary.
Context {PF : Platform}.

(** The exception a logged call ended with, when it did. *)
Definition event_failure (ev : Event Path) : option Exn :=
  match ev with
  | EvGet _ _ (inl e) => Some e
  | EvPost _ _ _ (inl e) => Some e
  | EvOpenRead _ (inl e) => Some e
  | EvMkdir _ _ _ (Some e) => Some e
  | EvWriteBytes _ _ (Some e) => Some e
  | _ => None
  end.

(** [m] only appends to the trace, and a library call of [m] that fails
    decides what [m] ends with. *)
Definition fails_fast {A} (m : M A) : Prop :=
  forall s, exists evs,
    trace (snd (m s)) = trace s ++ evs /\
    forall ev e,
      In ev evs -> event_failure ev = Some e -> fst (m s) = Raise e.

(** On a state of client [me], all that [m] adds to the trace satisfies
    [P]. *)
Definition emits {A} (me : Client) (P : Event Path -> Prop) (m : M A) : Prop :=
  forall s, self s = me ->
    exists evs, trace (snd (m s)) = trace s ++ evs /\ Forall P evs.

(** [p] is [target / n1 / ... / nk] for one or more names that all
    satisfy [ok].  This is about how the path is built and nothing more:
    where it lies depends on what [/] does with the names. *)
Inductive joined_onto (ok : string -> Prop) (target : Path) : Path -> Prop :=
| joined_child (n : string) :
    ok n -> joined_onto ok target (truediv target n)
| joined_deeper (n : string) (p : Path) :
    ok n -> joined_onto ok (truediv target n) p -> joined_onto ok target p.

(** What a download into [target] may do: GET with the client's headers,
    print, and create or write at paths joined onto [target]. *)
Definition download_event (me : Client) (ok : string -> Prop) (target : Path)
  (ev : Event Path) : Prop :=
  match ev with
  | EvGet _ hdrs _ => hdrs = headers me
  | EvPrint _ => True
  | EvMkdir p parents exist_ok _ =>
      joined_onto ok target p /\ parents = false /\ exist_ok = true
  | EvWriteBytes p _ _ => joined_onto ok target p
  | EvPost _ _ _ _ => False
  | EvOpenRead _ _ => False
  end.

(** Every name in a listing that the server answers with status 200
    satisfies [ok]. *)
Definition listed_names (ok : string -> Prop) : Prop :=
  forall history url hdrs r contents items fields n,
    requests_get history url hdrs = inr r ->
    status_code r = 200 ->
    json r = inr contents ->
    iterate contents = inr items ->
    In (JObj fields) items ->
    dict_get "name" fields = Some (JStr n) ->
    ok n.

(** What a query may do: read files, print, POST. *)
Definition query_event (ev : Event Path) : bool :=
  match ev with
  | EvOpenRead _ _ | EvPrint _ | EvPost _ _ _ _ => true
  | _ => false
  end.

(** The files a piece of trace opened, and the POSTs it made. *)
Definition reads_of (evs : list (Event Path)) : list string :=
  flat_map (fun ev => match ev with
                      | EvOpenRead file _ => [file]
                      | _ => []
                      end) evs.

Definition posts_of (evs : list (Event Path))
  : list (string * Headers * JSON * (Exn + Response)) :=
  flat_map (fun ev => match ev with
                      | EvPost url hdrs body answer => [(url, hdrs, body, answer)]
                      | _ => []
                      end) evs.

(** [context_files or []] *)
Definition files_of (context_files : option (list string)) : list string :=
  match context_files with
  | Some l => l
  | None => []
  end.

(** What one readable file adds to the context. *)
Definition context_block (file_path file_content : string) : string :=
  newline +++ "# File: " +++ file_path +++ newline +++ file_content +++ newline.

(** The blocks of the files of [l] that [files] can read, in order. *)
Definition readable_blocks (files : FS) (l : list string) : list string :=
  flat_map (fun file_path =>
              match open_read files file_path with
              | inr file_content => [context_block file_path file_content]
              | inl _ => []
              end) l.

Definition join_all (l : list string) : string :=
  fold_right String.append "" l.

(** The dictionary a query returns for an answer to its POST. *)
Definition query_result_of (answer : Exn + Response) : CopilotResult :=
  match answer with
  | inl e => CopilotError (str_of_exn e)
  | inr r =>
      if status_code r =? 200 then
        match json r with
        | inr body => CopilotJson body
        | inl e => CopilotError (str_of_exn e)
        end
      else CopilotError (text r)
  end.

(** The records of the file entries of a listing processed into [target],
    and name and path of the records of its directory entries. *)
Definition file_records_of (target : Path) (items : list JSON)
  : list FileRecord :=
  flat_map (fun item =>
              match subscript item "name", subscript item "type",
                    subscript item "size" with
              | inr (JStr n), inr t, inr size =>
                  if eq_str t "file"
                  then [mkFileRecord n (str_of_path (truediv target n)) size]
                  else []
              | _, _, _ => []
              end) items.

Definition dir_heads_of (target : Path) (items : list JSON)
  : list (string * string) :=
  flat_map (fun item =>
              match subscript item "name", subscript item "type" with
              | inr (JStr n), inr t =>
                  if eq_str t "dir"
                  then [(n, str_of_path (truediv target n))]
                  else []
              | _, _ => []
              end) items.

(** The exception an entry raises before anything is done for it: it is
    no dictionary, or has no usable name, or no type. *)
Definition entry_error (item : JSON) : option Exn :=
  match item with
  | JObj fields =>
      match dict_get "name" fields with
      | None => Some (KeyError "name")
      | Some (JStr _) =>
          match dict_get "type" fields with
          | None => Some (KeyError "type")
          | Some _ => None
          end
      | Some _ => Some TypeError
      end
  | _ => Some TypeError
  end.

(** An entry with a name and a type that is neither file nor dir. *)
Definition passed_over (item : JSON) : bool :=
  match subscript item "name", subscript item "type" with
  | inr (JStr _), inr t => negb (eq_str t "file") && negb (eq_str t "dir")
  | _, _ => false
  end.

(** Name and path of a directory record. *)
Definition head_of (d : DirRecord) : string * string := (dr_name d, dr_path d).

(** Every listing names a directory first, and every [mkdir] succeeds. *)
Definition endless_tree : Prop :=
  (forall history url hdrs,
      exists r items fields n,
        requests_get history url hdrs = inr r /\
        status_code r = 200 /\
        json r = inr (JArr (JObj fields :: items)) /\
        dict_get "name" fields = Some (JStr n) /\
        dict_get "type" fields = Some (JStr "dir")) /\
  (forall files p, exists files', path_mkdir files p false true = inr files').

End MoreVocabulary.

(* ================================================================== *)
(** ** A platform to run the methods on

    An in-memory file system, a table-driven server and a base64 decoder.
    The theorems below hold for every [Platform]; this one serves to run the
    methods on concrete repositories. *)

Module Demo.

Inductive Node : Type :=
| File (data : bytes)
| Dir.

Definition MemFS := list (string * Node).

(** The text before the last ["/"], when there is one. *)
Fixpoint parent (p : string) : option string :=
  match p with
  | EmptyString => None
  | String c rest =>
      match parent rest with
      | Some d => Some (String c d)
      | None => if Ascii.eqb c "/"%char then Some "" else None
      end
  end.

Definition is_dir (m : MemFS) (p : string) : bool :=
  match dict_get p m with
  | Some Dir => true
  | _ => false
  end.

Definition parent_ok (m : MemFS) (p : string) : bool :=
  match parent p with
  | None => true
  | Some d => if String.eqb d "" then true else is_dir m d
  end.

Definition mkdir_one (m : MemFS) (p : string) (exist_ok : bool) : Exn + MemFS :=
  match dict_get p m with
  | Some Dir => if exist_ok then inr m else inl (OSError "FileExistsError")
  | Some (File _) => inl (OSError "FileExistsError")
  | None =>
      if parent_ok m p then inr (dict_set p Dir m)
      else inl (OSError "FileNotFoundError")
  end.

(** The proper prefixes of [rest] that end before a ["/"], shortest first. *)
Fixpoint ancestors (seen rest : string) : list string :=
  match rest with
  | EmptyString => []
  | String c r =>
      if Ascii.eqb c "/"%char then
        (if String.eqb seen "" then [] else [seen])
          ++ ancestors (seen +++ "/") r
      else ancestors (seen +++ String c "") r
  end.

Definition mem_mkdir (m : MemFS) (p : string) (parents exist_ok : bool)
  : Exn + MemFS :=
  if parents then
    match
      fold_left
        (fun acc d => match acc with
                      | inl e => inl e
                      | inr m' => mkdir_one m' d true
                      end)
        (ancestors "" p) (inr m)
    with
    | inl e => inl e
    | inr m' => mkdir_one m' p exist_ok
    end
  else mkdir_one m p exist_ok.

Definition mem_write_bytes (m : MemFS) (p : string) (data : bytes)
  : Exn + MemFS :=
  match dict_get p m with
  | Some Dir => inl (OSError "IsADirectoryError")
  | _ =>
      if parent_ok m p then inr (dict_set p (File data) m)
      else inl (OSError "FileNotFoundError")
  end.

Definition mem_open_read (m : MemFS) (file : string) : Exn + string :=
  match dict_get file m with
  | Some (File data) => inr (string_of_list_byte data)
  | Some Dir => inl (OSError "IsADirectoryError")
  | None => inl (OSError "FileNotFoundError")
  end.

(** Base64 with the standard alphabet; characters outside it are skipped
    and the text ends at the first ["="]. *)
Definition b64_index (c : ascii) : option N :=
  let n := N_of_ascii c in
  (if (65 <=? n) && (n <=? 90) then Some (n - 65)
   else if (97 <=? n) && (n <=? 122) then Some (n - 71)
   else if (48 <=? n) && (n <=? 57) then Some (n + 4)
   else if n =? 43 then Some 62
   else if n =? 47 then Some 63
   else None)%N.

Fixpoint sextets (s : string) : list N :=
  match s with
  | EmptyString => []
  | String c rest =>
      if Ascii.eqb c "="%char then []
      else match b64_index c with
           | Some n => n :: sextets rest
           | None => sextets rest
           end
  end.

Definition byte_of (n : N) : byte :=
  match Byte.of_N (n mod 256)%N with
  | Some b => b
  | None => x00
  end.

Fixpoint unsextet (l : list N) : Exn + bytes :=
  match l with
  | [] => inr []
  | [_] => inl Base64Error
  | [a; b] => inr [byte_of ((a * 64 + b) / 16)%N]
  | [a; b; c] =>
      let w := ((a * 64 + b) * 64 + c)%N in
      inr [byte_of (w / 1024)%N; byte_of (w / 4)%N]
  | a :: b :: c :: d :: rest =>
      let w := (((a * 64 + b) * 64 + c) * 64 + d)%N in
      match unsextet rest with
      | inl e => inl e
      | inr tail =>
          inr (byte_of (w / 65536)%N :: byte_of (w / 256)%N :: byte_of w :: tail)
      end
  end.

Definition demo_b64decode (s : string) : Exn + bytes := unsextet (sextets s).

Definition demo_str_of_exn (e : Exn) : string :=
  match e with
  | TypeError => "TypeError"
  | KeyError key => "'" +++ key +++ "'"
  | RequestException detail => detail
  | JSONDecodeError => "JSONDecodeError"
  | Base64Error => "Incorrect padding"
  | OSError detail => detail
  end.

(** A server is a table from URLs to answers; other URLs are not found. *)
Definition not_found : Response :=
  {| status_code := 404; text := "Not Found"; content := [];
     json := inr (JObj [("message", JStr "Not Found")]) |}.

Definition Server := list (string * (Exn + Response)).

Definition answer (table : Server) (url : string) : Exn + Response :=
  match dict_get url table with
  | Some a => a
  | None => inr not_found
  end.

(** Was [url] requested before? *)
Definition requested (history : list (Event string)) (url : string) : bool :=
  existsb (fun ev => match ev with
                     | EvGet u _ _ => String.eqb u url
                     | _ => false
                     end) history.

(** [first] answers the first request for a URL, [later] the following ones. *)
Definition platform (first later : Server) : Platform :=
  {| Path := string;
     FS := MemFS;
     Path_of := fun s => s;
     truediv := fun p name => p +++ "/" +++ name;
     str_of_path := fun p => p;
     path_mkdir := mem_mkdir;
     path_write_bytes := mem_write_bytes;
     open_read := mem_open_read;
     requests_get := fun history url _ =>
       if requested history url then answer later url else answer first url;
     requests_post := fun _ url _ _ => answer first url;
     b64decode := demo_b64decode;
     str_of_exn := demo_str_of_exn |}.

Definition client : Client := __init__ "octocat" "secret".

Definition start (pf : Platform) (files : @FS pf) : @State pf :=
  {| self := client; fs := files; trace := [] |}.

(** A listing entry as the contents API sends it. *)
Definition file_entry (name : string) (size : Z) (download_url : string) : JSON :=
  JObj [ ("name", JStr name); ("type", JStr "file"); ("size", JNum size);
         ("download_url", JStr download_url) ].

Definition inline_entry (name : string) (size : Z) (encoded : string) : JSON :=
  JObj [ ("name", JStr name); ("type", JStr "file"); ("size", JNum size);
         ("content", JStr encoded); ("download_url", JNull) ].

Definition dir_entry (name : string) : JSON :=
  JObj [ ("name", JStr name); ("type", JStr "dir"); ("size", JNum 0);
         ("download_url", JNull) ].

Definition ok_json (body : JSON) : Exn + Response :=
  inr {| status_code := 200; text := ""; content := []; json := inr body |}.

Definition ok_raw (data : bytes) : Exn + Response :=
  inr {| status_code := 200; text := ""; content := data;
         json := inl JSONDecodeError |}.

Definition failed (status : Z) (body : string) : Exn + Response :=
  inr {| status_code := status; text := body; content := [];
         json := inl JSONDecodeError |}.

Definition api (path : string) : string :=
  "https://api.github.com/repos/octocat/Hello-World/contents/" +++ path.

Definition raw (path : string) : string :=
  "https://raw.githubusercontent.com/octocat/Hello-World/master/" +++ path.

Definition hello : bytes := list_byte_of_string "Hello World!".

(** The repository of the specification's example: one file at the root. *)
Definition hello_world : Server :=
  [ (api "", ok_json (JArr [file_entry "README.md" 12 (raw "README.md")]));
    (raw "README.md", ok_raw hello) ].

End Demo.

Module FailedListingDemo.
Import Demo.

Definition gone (status : Z) : Platform :=
  platform [(api "", failed status "gone")] [].

Definition run (status : Z) : Outcome DirResult * @State (gone status) :=
  @_download_directory_contents (gone status) 1 "octocat" "Hello-World" ""
    "Hello-World" (start (gone status) []).

End FailedListingDemo.

Module FileDemo.
Import Demo.

Definition pf : Platform := platform hello_world hello_world.

Definition checkout : @State pf := start pf [("Hello-World", Dir)].

Definition process (fields : list (string * JSON)) : Outcome Listing * @State pf :=
  @process_item pf (@_download_directory_contents pf 0) "octocat" "Hello-World"
    "" "Hello-World" (JObj fields) empty_listing checkout.

Definition hi_fields : list (string * JSON) :=
  [ ("name", JStr "hi.txt"); ("type", JStr "file"); ("size", JNum 2);
    ("content", JStr "aGk="); ("download_url", JNull) ].

Definition readme_fields : list (string * JSON) :=
  [ ("name", JStr "README.md"); ("type", JStr "file"); ("size", JNum 12);
    ("download_url", JStr (raw "README.md")) ].

(** The raw host answers 503 to the first request of a URL. *)
Definition flaky : Platform :=
  platform [(raw "README.md", failed 503 "try again")] hello_world.

Definition first_try : Outcome Listing * @State flaky :=
  @process_item flaky (@_download_directory_contents flaky 0) "octocat"
    "Hello-World" "" "Hello-World" (JObj readme_fields) empty_listing
    (start flaky [("Hello-World", Dir)]).

Definition second_try : Outcome Listing * @State flaky :=
  @process_item flaky (@_download_directory_contents flaky 0) "octocat"
    "Hello-World" "" "Hello-World" (JObj readme_fields) empty_listing
    (snd first_try).

End FileDemo.

(* ================================================================== *)
(** ** A repository with two directories *)

Module ProjectDemo.
Import Demo.

Definition link_entry (name : string) : JSON :=
  JObj [ ("name", JStr name); ("type", JStr "symlink"); ("size", JNum 3);
         ("download_url", JNull) ].

Definition readme : JSON := file_entry "README.md" 12 (raw "README.md").
Definition docs_fields : list (string * JSON) :=
  [ ("name", JStr "docs"); ("type", JStr "dir"); ("size", JNum 0);
    ("download_url", JNull) ].
Definition license_fields : list (string * JSON) :=
  [ ("name", JStr "LICENSE"); ("type", JStr "file"); ("size", JNum 3);
    ("download_url", JStr (raw "LICENSE")) ].
Definition src_fields : list (string * JSON) :=
  [ ("name", JStr "src"); ("type", JStr "dir"); ("size", JNum 0);
    ("download_url", JNull) ].

Definition root_items : list JSON :=
  [ readme; JObj docs_fields; JObj license_fields; JObj src_fields;
    link_entry "latest" ].

(** The listing of [docs] fails and so does the download of [LICENSE]. *)
Definition project : Server :=
  [ (api "", ok_json (JArr root_items));
    (api "docs", failed 500 "boom");
    (api "src", ok_json (JArr [inline_entry "hi.txt" 2 "aGk="]));
    (raw "README.md", ok_raw hello);
    (raw "LICENSE", failed 404 "Not Found") ].

Definition pf : Platform := platform project project.

Definition checkout : @State pf := start pf [("Hello-World", Dir)].

Definition body : JSON -> Listing -> @M pf Listing :=
  @process_item pf (@_download_directory_contents pf 1) "octocat" "Hello-World"
    "" "Hello-World".

Definition loop (items : list JSON) : Outcome Listing * @State pf :=
  for_each body items empty_listing checkout.

Definition listing_of (run : Outcome Listing * @State pf) : Listing :=
  match fst run with
  | Ret l => l
  | _ => empty_listing
  end.

Definition download : Outcome DirResult * @State pf :=
  @_download_directory_contents pf 2 "octocat" "Hello-World" "" "Hello-World"
    checkout.

Definition readme_record : FileRecord :=
  mkFileRecord "README.md" "Hello-World/README.md" (JNum 12).
Definition license_record : FileRecord :=
  mkFileRecord "LICENSE" "Hello-World/LICENSE" (JNum 3).
Definition docs_record : DirRecord :=
  mkDirRecord "docs" "Hello-World/docs" (ErrorResult "boom").
Definition src_record : DirRecord :=
  mkDirRecord "src" "Hello-World/src"
    (ListingResult
       [mkFileRecord "hi.txt" "Hello-World/src/hi.txt" (JNum 2)] []).

(** The same repository on a file system that never refuses. *)
Definition forgiving : Platform :=
  {| Path := string;
     FS := MemFS;
     Path_of := fun s => s;
     truediv := fun p name => p +++ "/" +++ name;
     str_of_path := fun p => p;
     path_mkdir := fun m p _ _ => inr (dict_set p Dir m);
     path_write_bytes := fun m p data => inr (dict_set p (File data) m);
     open_read := mem_open_read;
     requests_get := fun _ url _ => answer project url;
     requests_post := fun _ url _ _ => answer project url;
     b64decode := demo_b64decode;
     str_of_exn := demo_str_of_exn |}.

(** A directory and a file of the same name, one level down. *)
Definition clash : Server :=
  [ (api "", ok_json (JArr [dir_entry "docs"]));
    (api "docs",
     ok_json (JArr [dir_entry "x"; file_entry "x" 12 (raw "docs/x")]));
    (api "docs/x", ok_json (JArr []));
    (raw "docs/x", ok_raw hello) ].

Definition clashing : Platform := platform clash clash.

Definition clash_fetch : Outcome DirResult * @State clashing :=
  @fetch_repository clashing 3 "octocat" "Hello-World" None (start clashing []).

(** Two servers that differ in the answer to one download only. *)
Definition one_file (download : Exn + Response) : Platform :=
  platform [ (api "", ok_json (JArr [readme])); (raw "README.md", download) ]
           [].

Definition one_file_fetch (download : Exn + Response)
  : Outcome DirResult * @State (one_file download) :=
  @fetch_repository (one_file download) 2 "octocat" "Hello-World" None
    (start (one_file download) []).

Definition root : @State forgiving := start forgiving [].

End ProjectDemo.

(* ================================================================== *)
(** ** A query with two context files *)

Module QueryDemo.
Import Demo.

Definition completion : JSON := JObj [("choices", JArr [JStr "def parse(): ..."])].

Definition pf : Platform :=
  platform [(copilot_url, ok_json completion)] [].

(** One context file is there, the other is not. *)
Definition desk : @State pf :=
  start pf [("notes.txt", File (list_byte_of_string "remember"))].

Definition ask : Outcome CopilotResult * @State pf :=
  @send_copilot_query pf "Write a parser" (Some ["notes.txt"; "missing.txt"])
    desk.

Definition sent_headers : Headers :=
  [ ("Authorization", "token secret");
    ("Accept", "application/vnd.github.v3+json");
    ("User-Agent", "GitHub-Copilot-Client-octocat");
    ("Content-Type", "application/json");
    ("GitHub-Authentication", "Bearer secret") ].

Definition sent_body : JSON :=
  JObj [ ("prompt",
          JStr (newline +++ "# File: notes.txt" +++ newline +++ "remember"
                +++ newline +++ newline +++ "Write a parser"));
         ("max_tokens", JNum 500);
         ("temperature", temperature) ].

End QueryDemo.

(* ================================================================== *)
(** ** Repositories and servers that misbehave *)

Module EdgeDemo.
Import Demo.

(** The download of the one file never gets an answer. *)
Definition unreachable : Platform :=
  platform [ (api "", ok_json (JArr [ProjectDemo.readme]));
             (raw "README.md", inl (RequestException "connection reset")) ]
           [].

Definition unreachable_fetch : Outcome DirResult * @State unreachable :=
  @fetch_repository unreachable 2 "octocat" "Hello-World" None
    (start unreachable []).

Definition project_fetch : Outcome DirResult * @State ProjectDemo.pf :=
  @fetch_repository ProjectDemo.pf 2 "octocat" "Hello-World" None
    (start ProjectDemo.pf []).

(** The target is there already, as a file. *)
Definition occupied : @State ProjectDemo.pf :=
  start ProjectDemo.pf [("Hello-World", File [])].

(** The path listed is a file: the API answers with one object. *)
Definition file_object : JSON :=
  JObj [ ("name", JStr "README.md"); ("type", JStr "file");
         ("size", JNum 12) ].

Definition single : Platform :=
  platform [ (api "README.md", ok_json file_object);
             (api "garbage", ok_raw hello) ] [].

Definition sizeless_fields : list (string * JSON) :=
  [ ("name", JStr "README.md"); ("type", JStr "file");
    ("download_url", JStr (raw "README.md")) ].

Definition bare_fields : list (string * JSON) :=
  [ ("name", JStr "README.md"); ("type", JStr "file") ].

Definition link_fields : list (string * JSON) :=
  [ ("name", JStr "latest"); ("type", JStr "symlink"); ("size", JNum 3);
    ("download_url", JNull) ].

Definition submodule_fields : list (string * JSON) :=
  [ ("name", JStr "vendor"); ("type", JStr "submodule"); ("size", JNum 0);
    ("download_url", JNull) ].

Definition links : Platform :=
  platform [ (api "", ok_json (JArr [JObj link_fields;
                                     JObj submodule_fields])) ] [].

(** A plain name is one path component that is neither empty nor [.] nor
    [..]; one path lies inside another when it continues it by one or more
    plain components. *)
Definition plain_name (n : string) : bool :=
  negb (String.eqb n "") && negb (String.eqb n ".")
  && negb (String.eqb n "..")
  && negb (existsb (Ascii.eqb "/"%char) (list_ascii_of_string n)).

Definition plain (n : string) : Prop := plain_name n = true.

Definition descend (t : string) (components : list string) : string :=
  fold_left (fun p n => p +++ "/" +++ n) components t.

Definition inside (t p : string) : Prop :=
  exists components,
    components <> [] /\ forallb plain_name components = true /\
    p = descend t components.

Definition nameless : JSON := JObj [("type", JStr "file"); ("size", JNum 1)].

(** Every listing is one directory [a]; nothing fails locally. *)
Definition endless : Platform :=
  {| Path := string;
     FS := MemFS;
     Path_of := fun s => s;
     truediv := fun p name => p +++ "/" +++ name;
     str_of_path := fun p => p;
     path_mkdir := fun m p _ _ => inr (dict_set p Dir m);
     path_write_bytes := fun m p data => inr (dict_set p (File data) m);
     open_read := mem_open_read;
     requests_get := fun _ _ _ => ok_json (JArr [dir_entry "a"]);
     requests_post := fun _ _ _ _ => inr not_found;
     b64decode := demo_b64decode;
     str_of_exn := demo_str_of_exn |}.

End EdgeDemo.

(* ================================================================== *)
(** ** The methods at work *)

(** The example of the specification: the root of [octocat/Hello-World]
    lists one file, and the fetch writes it below [Hello-World]. *)
Example fetch_hello_world :
  let pf := Demo.platform Demo.hello_world Demo.hello_world in
  let run := @fetch_repository pf 1 "octocat" "Hello-World" None
               (Demo.start pf []) in
  fst run
  = Ret (ListingResult
           [mkFileRecord "README.md" "Hello-World/README.md" (JNum 12)] []) /\
  fs (snd run)
  = [("Hello-World", Demo.Dir); ("Hello-World/README.md", Demo.File Demo.hello)].
Proof. split; reflexivity. Qed.

Example fetch_project :
  fst ProjectDemo.download
  = Ret (ListingResult
           [ProjectDemo.readme_record; ProjectDemo.license_record]
           [ProjectDemo.docs_record; ProjectDemo.src_record]).
Proof. reflexivity. Qed.

Example fetch_without_fuel :
  fst (@_download_directory_contents ProjectDemo.pf 1 "octocat" "Hello-World"
         "" "Hello-World" ProjectDemo.checkout)
  = OutOfFuel.
Proof. reflexivity. Qed.

Example malformed_listing :
  let pf := Demo.platform
              [(Demo.api "", Demo.ok_json (JObj [("name", JStr "README.md")]))]
              [] in
  fst (@_download_directory_contents pf 1 "octocat" "Hello-World" ""
         "Hello-World" (Demo.start pf []))
  = Raise TypeError.
Proof. reflexivity. Qed.

Example decode_hello :
  Demo.demo_b64decode "SGVsbG8gV29ybGQh" = inr Demo.hello.
Proof. reflexivity. Qed.

Example query_headers :
  let pf := Demo.platform [] [] in
  trace (snd (@send_copilot_query pf "hi" None (Demo.start pf [])))
  = [ EvPost copilot_url
        [ ("Authorization", "token secret");
          ("Accept", "application/vnd.github.v3+json");
          ("User-Agent", "GitHub-Copilot-Client-octocat");
          ("Content-Type", "application/json");
          ("GitHub-Authentication", "Bearer secret") ]
        (JObj [ ("prompt", JStr (newline +++ "hi")); ("max_tokens", JNum 500);
                ("temperature", temperature) ])
        (inr Demo.not_found);
      EvPrint "Error from Copilot API: 404";
      EvPrint "Not Found" ].
Proof. reflexivity. Qed.

(* ================================================================== *)
(** ** How the monad runs *)

Create HintDb effects.

Section Running.
Context {PF : Platform}.

Lemma bind_Ret {A B} (m : M A) (k : A -> M B) s a s' :
  m s = (Ret a, s') -> bind m k s = k a s'.
Proof. intros H. unfold bind. now rewrite H. Qed.

Lemma bind_Raise {A B} (m : M A) (k : A -> M B) s e s' :
  m s = (Raise e, s') -> bind m k s = (Raise e, s').
Proof. intros H. unfold bind. now rewrite H. Qed.

Lemma bind_OutOfFuel {A B} (m : M A) (k : A -> M B) s s' :
  m s = (OutOfFuel, s') -> bind m k s = (OutOfFuel, s').
Proof. intros H. unfold bind. now rewrite H. Qed.

Lemma lift_inr {A B} (a : A) (k : A -> M B) s :
  bind (lift (inr a)) k s = k a s.
Proof. reflexivity. Qed.

Lemma lift_inl {A B} (e : Exn) (k : A -> M B) s :
  bind (lift (inl e)) k s = (Raise e, s).
Proof. reflexivity. Qed.

Lemma for_each_app {A Acc} (body : A -> Acc -> M Acc) pre post acc s :
  for_each body (pre ++ post) acc s
  = bind (for_each body pre acc) (for_each body post) s.
Proof.
  revert acc s. induction pre as [|x pre IH]; intros acc s; simpl.
  - reflexivity.
  - unfold bind in *. destruct (body x acc s) as [[a| e|] s1]; auto.
Qed.

Lemma for_each_cons {A Acc} (body : A -> Acc -> M Acc) x rest acc s :
  for_each body (x :: rest) acc s = bind (body x acc) (for_each body rest) s.
Proof. reflexivity. Qed.

(** One level of the method. *)
Lemma download_S fuel owner repo path target_path :
  _download_directory_contents (S fuel) owner repo path target_path
  = (me <- get_self ;;
     response <- http_get (contents_url (base_url me) owner repo path)
                          (headers me) ;;
     if negb (status_code response =? 200) then
       print ("Error fetching directory contents: "
              +++ str_of_int (status_code response)) ;;;
       print (text response) ;;;
       ret (ErrorResult (text response))
     else
       contents <- lift (json response) ;;
       items <- lift (iterate contents) ;;
       result <- for_each
                   (process_item (_download_directory_contents fuel)
                                 owner repo path target_path)
                   items empty_listing ;;
       ret (ListingResult (files result) (directories result))).
Proof. reflexivity. Qed.

(** A failed listing: what is returned and everything that happens. *)
Lemma failed_listing_run fuel owner repo path target_path s r :
  listing_answer (trace s) (self s) owner repo path = inr r ->
  status_code r <> 200 ->
  _download_directory_contents (S fuel) owner repo path target_path s
  = (Ret (ErrorResult (text r)),
     log (EvPrint (text r))
       (log (EvPrint ("Error fetching directory contents: "
                      +++ str_of_int (status_code r)))
          (log (EvGet (contents_url (base_url (self s)) owner repo path)
                      (headers (self s)) (inr r)) s))).
Proof.
  intros Hget Hstatus. unfold listing_answer in Hget.
  cbn [_download_directory_contents].
  unfold bind, get_self, http_get. rewrite Hget.
  apply Z.eqb_neq in Hstatus. rewrite Hstatus. reflexivity.
Qed.

Ltac quiet_step :=
  intros s; exists []; split; [now rewrite app_nil_r | intros ? ? ? []].

Ltac one_event :=
  intros s; eexists [_]; split;
  [reflexivity | intros ? ? ? [Hev|[]]; try discriminate Hev].

Lemma propagates_ret {A} (a : A) : propagates (ret a).
Proof. quiet_step. Qed.

Lemma propagates_raise {A} (e : Exn) : propagates (@raise _ A e).
Proof. quiet_step. Qed.

Lemma propagates_out_of_fuel {A} : propagates (@out_of_fuel _ A).
Proof. quiet_step. Qed.

Lemma propagates_lift {A} (x : Exn + A) : propagates (lift x).
Proof. destruct x; quiet_step. Qed.

Lemma propagates_get_self : propagates get_self.
Proof. quiet_step. Qed.

Lemma propagates_print line : propagates (print line).
Proof. one_event. Qed.

Lemma propagates_http_get url hdrs : propagates (http_get url hdrs).
Proof.
  intros s. unfold http_get.
  destruct (requests_get (trace s) url hdrs) eqn:E; eexists [_]; simpl;
    (split; [reflexivity | intros ? ? ? [Hev|[]]; discriminate Hev]).
Qed.

Lemma propagates_mkdir p parents exist_ok : propagates (mkdir p parents exist_ok).
Proof.
  intros s. unfold mkdir.
  destruct (path_mkdir (fs s) p parents exist_ok) eqn:E; eexists [_]; simpl;
    (split; [reflexivity | intros ? ? ? [Hev|[]]; discriminate Hev]).
Qed.

Lemma propagates_write_bytes p data : propagates (write_bytes p data).
Proof.
  intros s. unfold write_bytes.
  destruct (path_write_bytes (fs s) p data) eqn:E; eexists [_]; simpl;
    (split; [reflexivity | intros ? ? ? [Hev|[]]]).
  - now inversion Hev.
  - discriminate Hev.
Qed.

Lemma propagates_bind {A B} (m : M A) (k : A -> M B) :
  propagates m -> (forall a, propagates (k a)) -> propagates (bind m k).
Proof.
  intros Hm Hk s. destruct (Hm s) as [evs1 [Ht1 Hw1]]. unfold bind.
  destruct (m s) as [[a|e|] s1]; simpl in *.
  - destruct (Hk a s1) as [evs2 [Ht2 Hw2]]. exists (evs1 ++ evs2). split.
    + now rewrite Ht2, Ht1, app_assoc.
    + intros p data x Hin. apply in_app_or in Hin as [Hin|Hin].
      * now specialize (Hw1 _ _ _ Hin).
      * eauto.
  - exists evs1. split; [assumption|]. intros p data x Hin.
    specialize (Hw1 _ _ _ Hin). now inversion Hw1.
  - exists evs1. split; [assumption|]. intros p data x Hin.
    now specialize (Hw1 _ _ _ Hin).
Qed.

Lemma propagates_for_each {A Acc} (body : A -> Acc -> M Acc) l :
  (forall x acc, propagates (body x acc)) ->
  forall acc, propagates (for_each body l acc).
Proof.
  intros Hbody. induction l as [|x l IH]; intros acc; simpl.
  - apply propagates_ret.
  - apply propagates_bind; auto.
Qed.

#[local] Hint Resolve propagates_ret propagates_raise propagates_out_of_fuel
  propagates_lift propagates_get_self propagates_print propagates_http_get
  propagates_mkdir propagates_write_bytes : effects.

Ltac effects :=
  repeat first
    [ solve [auto with effects]
    | apply propagates_bind; [|intros]
    | match goal with
      | |- propagates (if ?c then _ else _) => destruct c
      | |- propagates (match ?x with _ => _ end) => destruct x
      end ].

Lemma propagates_py_get v hdrs : propagates (py_get v hdrs).
Proof. unfold py_get. effects. Qed.

Lemma propagates_get_file_content file_info :
  propagates (_get_file_content file_info).
Proof.
  pose proof propagates_py_get. unfold _get_file_content. effects.
Qed.

Lemma propagates_process_item recurse owner repo path target_path item result :
  (forall o r p t, propagates (recurse o r p t)) ->
  propagates (process_item recurse owner repo path target_path item result).
Proof.
  intros Hrec. pose proof propagates_get_file_content.
  unfold process_item. effects.
Qed.

Lemma propagates_download fuel :
  forall owner repo path target_path,
    propagates (_download_directory_contents fuel owner repo path target_path).
Proof.
  induction fuel as [|fuel IH]; intros owner repo path target_path;
    cbn [_download_directory_contents].
  - apply propagates_out_of_fuel.
  - effects. apply propagates_for_each. intros.
    now apply propagates_process_item.
Qed.

(** The first thing a download does is its listing request. *)
Lemma download_trace_starts fuel owner repo path target_path s :
  exists rest,
    trace (snd (_download_directory_contents (S fuel) owner repo path
                  target_path s))
    = trace s
      ++ EvGet (contents_url (base_url (self s)) owner repo path)
               (headers (self s))
               (listing_answer (trace s) (self s) owner repo path)
         :: rest.
Proof.
  rewrite download_S. unfold bind at 1. unfold get_self.
  match goal with
  | |- context [bind (http_get _ _) ?K] =>
      assert (HK : forall r, propagates (K r))
  end.
  { intros r. effects. apply propagates_for_each. intros.
    apply propagates_process_item. apply propagates_download. }
  unfold bind at 1. unfold http_get, listing_answer.
  destruct (requests_get (trace s)
              (contents_url (base_url (self s)) owner repo path)
              (headers (self s))) as [e|r].
  - now exists [].
  - destruct (HK r (log (EvGet (contents_url (base_url (self s)) owner repo
                                  path)
                               (headers (self s)) (inr r)) s))
      as [evs [Ht _]].
    exists evs. etransitivity; [exact Ht|]. simpl. now rewrite <- app_assoc.
Qed.

Lemma propagates_fetch fuel repo_owner repo_name target_path :
  propagates (fetch_repository fuel repo_owner repo_name target_path).
Proof.
  pose proof (propagates_download fuel). unfold fetch_repository. effects.
Qed.

(** *** The client object is never assigned to *)

Lemma keeps_self_ret {A} (a : A) : keeps_self (ret a).
Proof. now intros s. Qed.

Lemma keeps_self_raise {A} (e : Exn) : keeps_self (@raise _ A e).
Proof. now intros s. Qed.

Lemma keeps_self_out_of_fuel {A} : keeps_self (@out_of_fuel _ A).
Proof. now intros s. Qed.

Lemma keeps_self_lift {A} (x : Exn + A) : keeps_self (lift x).
Proof. now destruct x; intros s. Qed.

Lemma keeps_self_get_self : keeps_self get_self.
Proof. now intros s. Qed.

Lemma keeps_self_print line : keeps_self (print line).
Proof. now intros s. Qed.

Lemma keeps_self_http_get url hdrs : keeps_self (http_get url hdrs).
Proof.
  intros s. unfold http_get. now destruct (requests_get (trace s) url hdrs).
Qed.

Lemma keeps_self_http_post url hdrs body : keeps_self (http_post url hdrs body).
Proof.
  intros s. unfold http_post.
  now destruct (requests_post (trace s) url hdrs body).
Qed.

Lemma keeps_self_mkdir p parents exist_ok : keeps_self (mkdir p parents exist_ok).
Proof.
  intros s. unfold mkdir. now destruct (path_mkdir (fs s) p parents exist_ok).
Qed.

Lemma keeps_self_write_bytes p data : keeps_self (write_bytes p data).
Proof.
  intros s. unfold write_bytes. now destruct (path_write_bytes (fs s) p data).
Qed.

Lemma keeps_self_read_text file : keeps_self (read_text file).
Proof.
  intros s. unfold read_text. now destruct (open_read (fs s) file).
Qed.

Lemma keeps_self_bind {A B} (m : M A) (k : A -> M B) :
  keeps_self m -> (forall a, keeps_self (k a)) -> keeps_self (bind m k).
Proof.
  intros Hm Hk s. specialize (Hm s). unfold bind.
  destruct (m s) as [[a|e|] s1]; simpl in *; auto.
  now rewrite Hk.
Qed.

Lemma keeps_self_try_except {A} (m : M A) (handler : Exn -> M A) :
  keeps_self m -> (forall e, keeps_self (handler e)) ->
  keeps_self (try_except m handler).
Proof.
  intros Hm Hh s. specialize (Hm s). unfold try_except.
  destruct (m s) as [[a|e|] s1]; simpl in *; auto.
  now rewrite Hh.
Qed.

Lemma keeps_self_for_each {A Acc} (body : A -> Acc -> M Acc) l :
  (forall x acc, keeps_self (body x acc)) ->
  forall acc, keeps_self (for_each body l acc).
Proof.
  intros Hbody. induction l as [|x l IH]; intros acc; simpl.
  - apply keeps_self_ret.
  - apply keeps_self_bind; auto.
Qed.

#[local] Hint Resolve keeps_self_ret keeps_self_raise keeps_self_out_of_fuel
  keeps_self_lift keeps_self_get_self keeps_self_print keeps_self_http_get
  keeps_self_http_post keeps_self_mkdir keeps_self_write_bytes
  keeps_self_read_text : effects.

Ltac frame :=
  repeat first
    [ solve [auto with effects]
    | apply keeps_self_bind; [|intros]
    | apply keeps_self_try_except; [|intros]
    | apply keeps_self_for_each; intros
    | match goal with
      | |- keeps_self (if ?c then _ else _) => destruct c
      | |- keeps_self (match ?x with _ => _ end) => destruct x
      end ].

Lemma keeps_self_get_file_content file_info :
  keeps_self (_get_file_content file_info).
Proof. unfold _get_file_content, py_get. frame. Qed.

Lemma keeps_self_process_item recurse owner repo path target_path item result :
  (forall o r p t, keeps_self (recurse o r p t)) ->
  keeps_self (process_item recurse owner repo path target_path item result).
Proof.
  intros Hrec. pose proof keeps_self_get_file_content.
  unfold process_item. frame.
Qed.

Lemma keeps_self_download fuel :
  forall owner repo path target_path,
    keeps_self (_download_directory_contents fuel owner repo path target_path).
Proof.
  induction fuel as [|fuel IH]; intros owner repo path target_path;
    cbn [_download_directory_contents].
  - apply keeps_self_out_of_fuel.
  - pose proof (fun o r p t i res =>
                  keeps_self_process_item _ o r p t i res IH).
    frame.
Qed.

Lemma keeps_self_fetch fuel repo_owner repo_name target_path :
  keeps_self (fetch_repository fuel repo_owner repo_name target_path).
Proof.
  pose proof (keeps_self_download fuel). unfold fetch_repository. frame.
Qed.

Lemma keeps_self_query query context_files :
  keeps_self (send_copilot_query query context_files).
Proof. unfold send_copilot_query, read_context_file. frame. Qed.

Lemma perform_keeps_self fuel c s : self (perform fuel c s) = self s.
Proof.
  destruct c; simpl.
  - apply keeps_self_fetch.
  - apply keeps_self_download.
  - apply keeps_self_get_file_content.
  - apply keeps_self_query.
Qed.

Lemma perform_all_keeps_self fuel calls :
  forall s, self (perform_all fuel calls s) = self s.
Proof.
  unfold perform_all. induction calls as [|c calls IH]; intros s; simpl.
  - reflexivity.
  - rewrite IH. apply perform_keeps_self.
Qed.

(** C8. The credentials are set by the constructor and no operation ever
    changes them: after any sequence of [fetch_repository],
    [_download_directory_contents], [_get_file_content] and
    [send_copilot_query] calls on a client built from [username] and
    [pat_token], its four fields are what [__init__] made them. *)
Theorem credentials_immutable :
  forall (fuel : nat) (calls : list Call) (user token : string)
         (files : FS) (history : list (Event Path)),
    let s := {| self := __init__ user token; fs := files; trace := history |} in
    let s' := perform_all fuel calls s in
    username (self s') = user /\
    pat_token (self s') = token /\
    headers (self s')
      = [ ("Authorization", "token " +++ token);
          ("Accept", "application/vnd.github.v3+json");
          ("User-Agent", "GitHub-Copilot-Client-" +++ user) ] /\
    base_url (self s') = "https://api.github.com" /\
    self s' = self s.
Proof.
  intros fuel calls user token files history s s'.
  assert (H : self s' = self s) by apply perform_all_keeps_self.
  rewrite H. simpl. repeat split.
Qed.

End Running.

(* ================================================================== *)
(** ** A listing request that fails *)

Section FailedListing.
Context {PF : Platform}.

(** C2, as the code has it.  A listing request answered with a status other
    than 200 makes the listing operation return [{'error': body}] without
    raising; the body is all the result holds, the status only goes to
    standard output. *)
Theorem failed_listing_returns_body :
  forall fuel owner repo path target_path s r,
    listing_answer (trace s) (self s) owner repo path = inr r ->
    status_code r <> 200 ->
    let run := _download_directory_contents (S fuel) owner repo path
                 target_path s in
    fst run = Ret (ErrorResult (text r)) /\
    trace (snd run)
    = trace s
      ++ [ EvGet (contents_url (base_url (self s)) owner repo path)
                 (headers (self s)) (inr r);
           EvPrint ("Error fetching directory contents: "
                    +++ str_of_int (status_code r));
           EvPrint (text r) ].
Proof.
  intros fuel owner repo path target_path s r Hget Hstatus run.
  subst run. rewrite (failed_listing_run _ _ _ _ _ _ _ Hget Hstatus).
  simpl. split; [reflexivity|]. now rewrite <- !app_assoc.
Qed.

(** C4. When the listing request of a directory is answered with a status
    other than 200, the download of that directory returns an error result,
    raises nothing, and leaves the local file system as it found it: no
    [mkdir] and no [write_bytes] is attempted. *)
Theorem failed_listing_creates_nothing :
  forall fuel owner repo path target_path s r,
    listing_answer (trace s) (self s) owner repo path = inr r ->
    status_code r <> 200 ->
    let run := _download_directory_contents (S fuel) owner repo path
                 target_path s in
    (exists body, fst run = Ret (ErrorResult body)) /\
    fs (snd run) = fs s /\
    exists evs,
      trace (snd run) = trace s ++ evs /\
      forallb (fun ev => negb (touches_fs ev)) evs = true.
Proof.
  intros fuel owner repo path target_path s r Hget Hstatus run.
  subst run. rewrite (failed_listing_run _ _ _ _ _ _ _ Hget Hstatus).
  simpl. split; [now exists (text r)|]. split; [reflexivity|].
  eexists [_; _; _].
  split; [rewrite <- !app_assoc; reflexivity | reflexivity].
Qed.

End FailedListing.

Lemma failed_listing_returns_body_witness :
  fst (FailedListingDemo.run 404) = Ret (ErrorResult "gone") /\
  trace (snd (FailedListingDemo.run 404))
  = [ EvGet (Demo.api "") (headers Demo.client) (Demo.failed 404 "gone");
      EvPrint "Error fetching directory contents: 404";
      EvPrint "gone" ].
Proof.
  apply (@failed_listing_returns_body (FailedListingDemo.gone 404) 0
           "octocat" "Hello-World" "" "Hello-World"
           (Demo.start (FailedListingDemo.gone 404) [])
           {| status_code := 404; text := "gone"; content := [];
              json := inl JSONDecodeError |}).
  - reflexivity.
  - simpl. lia.
Defined.

Lemma failed_listing_creates_nothing_witness :
  (exists body, fst (FailedListingDemo.run 500) = Ret (ErrorResult body)) /\
  fs (snd (FailedListingDemo.run 500)) = [] /\
  exists evs,
    trace (snd (FailedListingDemo.run 500)) = [] ++ evs /\
    forallb (fun ev => negb (touches_fs ev)) evs = true.
Proof.
  apply (@failed_listing_creates_nothing (FailedListingDemo.gone 500) 0
           "octocat" "Hello-World" "" "Hello-World"
           (Demo.start (FailedListingDemo.gone 500) [])
           {| status_code := 500; text := "gone"; content := [];
              json := inl JSONDecodeError |}).
  - reflexivity.
  - simpl. lia.
Defined.

(** C2 as stated fails: a 404 and a 500 with the same body give the same
    result, so no status can be read off it. *)
Lemma status_not_in_error_result : ~ error_result_carries_status.
Proof.
  intros [status_of H].
  destruct (H (FailedListingDemo.gone 404) 0%nat "octocat" "Hello-World" ""
              "Hello-World" (Demo.start (FailedListingDemo.gone 404) [])
              {| status_code := 404; text := "gone"; content := [];
                 json := inl JSONDecodeError |} eq_refl eq_refl)
    as [res1 [E1 S1]].
  destruct (H (FailedListingDemo.gone 500) 0%nat "octocat" "Hello-World" ""
              "Hello-World" (Demo.start (FailedListingDemo.gone 500) [])
              {| status_code := 500; text := "gone"; content := [];
                 json := inl JSONDecodeError |} eq_refl eq_refl)
    as [res2 [E2 S2]].
  vm_compute in E1, E2.
  injection E1 as <-. injection E2 as <-.
  simpl in S1, S2. rewrite S1 in S2. discriminate S2.
Qed.

(* ================================================================== *)
(** ** Entries of type file *)

Section FileEntries.
Context {PF : Platform}.

Lemma inline_content_run fields encoded s :
  dict_get "content" fields = Some (JStr encoded) ->
  encoded <> "" ->
  _get_file_content (JObj fields) s
  = (match b64decode encoded with
     | inl e => Raise e
     | inr data => Ret data
     end, s).
Proof.
  intros Hc Hne. unfold _get_file_content, has_inline_content.
  rewrite Hc. simpl. apply String.eqb_neq in Hne. rewrite Hne. simpl.
  unfold bind, lift. simpl. rewrite Hc. simpl.
  now destruct (b64decode encoded).
Qed.

Lemma download_run fields url r s :
  has_inline_content fields = false ->
  dict_get "download_url" fields = Some (JStr url) ->
  requests_get (trace s) url (headers (self s)) = inr r ->
  _get_file_content (JObj fields) s
  = if status_code r =? 200 then
      (Ret (content r), log (EvGet url (headers (self s)) (inr r)) s)
    else
      (Ret [],
       log (EvPrint ("Error downloading file: "
                     +++ str_of_int (status_code r)))
         (log (EvGet url (headers (self s)) (inr r)) s)).
Proof.
  intros Hc Hu Hget. unfold _get_file_content. rewrite Hc.
  unfold bind, lift, subscript. rewrite Hu. simpl.
  unfold http_get. rewrite Hget.
  now destruct (status_code r =? 200).
Qed.

(** A file entry once its content is there: the write, the size, the
    record. *)
Lemma file_entry_run recurse owner repo path target_path fields n result
      s data s1 :
  dict_get "name" fields = Some (JStr n) ->
  dict_get "type" fields = Some (JStr "file") ->
  _get_file_content (JObj fields) s = (Ret data, s1) ->
  process_item recurse owner repo path target_path (JObj fields) result s
  = match path_write_bytes (fs s1) (truediv target_path n) data with
    | inl e =>
        (Raise e, log (EvWriteBytes (truediv target_path n) data (Some e)) s1)
    | inr fs' =>
        let s2 := {| self := self s1; fs := fs';
                     trace := trace s1
                              ++ [EvWriteBytes (truediv target_path n) data None] |} in
        match dict_get "size" fields with
        | None => (Raise (KeyError "size"), s2)
        | Some size =>
            (Ret {| files := files result
                              ++ [mkFileRecord n
                                    (str_of_path (truediv target_path n)) size];
                    directories := directories result |},
             log (EvPrint ("Downloaded: "
                           +++ str_of_path (truediv target_path n))) s2)
        end
    end.
Proof.
  intros Hn Ht Hget. unfold process_item.
  unfold bind at 1. unfold lift at 1. unfold subscript at 1. rewrite Hn.
  cbn [ret]. unfold bind at 1. cbn [path_join lift ret fst snd].
  unfold bind at 1. unfold lift at 1. unfold subscript at 1. rewrite Ht.
  cbn [ret eq_str]. rewrite String.eqb_refl.
  unfold bind at 1. rewrite Hget.
  unfold bind at 1. unfold write_bytes.
  destruct (path_write_bytes (fs s1) (truediv target_path n) data) as [e|fs'];
    [reflexivity|].
  unfold bind, lift, subscript.
  destruct (dict_get "size" fields); reflexivity.
Qed.


End FileEntries.


Section FailedDownload.
Context {PF : Platform}.


End FailedDownload.


(* ================================================================== *)
(** ** Entries of type dir *)

Section DirectoryEntries.
Context {PF : Platform}.

(** A directory entry: [mkdir], the recursion, the record. *)
Lemma dir_entry_run recurse owner repo path target_path fields n result s :
  dict_get "name" fields = Some (JStr n) ->
  dict_get "type" fields = Some (JStr "dir") ->
  process_item recurse owner repo path target_path (JObj fields) result s
  = match path_mkdir (fs s) (truediv target_path n) false true with
    | inl e =>
        (Raise e, log (EvMkdir (truediv target_path n) false true (Some e)) s)
    | inr fs' =>
        match
          recurse owner repo (child_path path n) (truediv target_path n)
            {| self := self s; fs := fs';
               trace := trace s
                        ++ [EvMkdir (truediv target_path n) false true None] |}
        with
        | (Ret sub_result, s2) =>
            (Ret {| files := files result;
                    directories :=
                      directories result
                      ++ [mkDirRecord n (str_of_path (truediv target_path n))
                            sub_result] |},
             s2)
        | (Raise e, s2) => (Raise e, s2)
        | (OutOfFuel, s2) => (OutOfFuel, s2)
        end
    end.
Proof.
  intros Hn Ht. unfold process_item.
  unfold bind at 1. unfold lift at 1. unfold subscript at 1. rewrite Hn.
  cbn [ret]. unfold bind at 1. cbn [path_join lift ret fst snd].
  unfold bind at 1. unfold lift at 1. unfold subscript at 1. rewrite Ht.
  cbn -[String.append].
  unfold bind at 1. unfold mkdir.
  destruct (path_mkdir (fs s) (truediv target_path n) false true)
    as [e|fs']; [reflexivity|].
  unfold bind.
  match goal with
  | |- context [recurse ?o ?r ?p ?t ?st] =>
      destruct (recurse o r p t st) as [[sub|e|] s2]
  end; reflexivity.
Qed.

(** C5. An entry of type dir met while remote path [path] is processed:
    the local directory [target_path / name] is created first, and the
    recursion then runs, in the state that [mkdir] left, on the remote
    path [path/name] (on [name] alone at the root, where [path] is empty)
    and the local path [target_path / name]; what it returns becomes the
    ['contents'] of the entry's record.  A [mkdir] that fails ends the
    entry before any recursion.  In the trace of the method itself the
    [mkdir] is followed at once by the listing request of [path/name]. *)
Theorem directory_created_then_recursed :
  forall recurse owner repo path target_path fields n result s,
    dict_get "name" fields = Some (JStr n) ->
    dict_get "type" fields = Some (JStr "dir") ->
    let local := truediv target_path n in
    let remote := if String.eqb path "" then n else path +++ "/" +++ n in
    process_item recurse owner repo path target_path (JObj fields) result s
    = match path_mkdir (fs s) local false true with
      | inl e => (Raise e, log (EvMkdir local false true (Some e)) s)
      | inr fs' =>
          match
            recurse owner repo remote local
              {| self := self s; fs := fs';
                 trace := trace s ++ [EvMkdir local false true None] |}
          with
          | (Ret sub_result, s2) =>
              (Ret {| files := files result;
                      directories :=
                        directories result
                        ++ [mkDirRecord n (str_of_path local) sub_result] |},
               s2)
          | (Raise e, s2) => (Raise e, s2)
          | (OutOfFuel, s2) => (OutOfFuel, s2)
          end
      end /\
    forall fuel fs',
      path_mkdir (fs s) local false true = inr fs' ->
      exists rest,
        trace (snd (process_item (_download_directory_contents (S fuel))
                      owner repo path target_path (JObj fields) result s))
        = trace s
          ++ EvMkdir local false true None
             :: EvGet (contents_url (base_url (self s)) owner repo remote)
                      (headers (self s))
                      (listing_answer
                         (trace s ++ [EvMkdir local false true None])
                         (self s) owner repo remote)
             :: rest.
Proof.
  intros recurse owner repo path target_path fields n result s Hn Ht
         local remote.
  split.
  - exact (dir_entry_run recurse owner repo path target_path fields n result s
             Hn Ht).
  - intros fuel fs' Hmk.
    rewrite (dir_entry_run _ owner repo path target_path fields n result s
               Hn Ht).
    fold local. rewrite Hmk. fold (child_path path n).
    match goal with
    | |- context [_download_directory_contents (S fuel) ?o ?r ?p ?t ?st] =>
        destruct (download_trace_starts fuel o r p t st) as [rest Hrest];
        destruct (_download_directory_contents (S fuel) o r p t st)
          as [[sub|e|] s2]
    end; exists rest; simpl in *; rewrite Hrest, <- app_assoc; reflexivity.
Qed.

(** A subdirectory whose listing fails. *)
Lemma failed_subdirectory_run fuel owner repo path target_path fields n
      result s fs' r :
  dict_get "name" fields = Some (JStr n) ->
  dict_get "type" fields = Some (JStr "dir") ->
  path_mkdir (fs s) (truediv target_path n) false true = inr fs' ->
  listing_answer (trace s ++ [EvMkdir (truediv target_path n) false true None])
    (self s) owner repo (child_path path n) = inr r ->
  status_code r <> 200 ->
  exists s2,
    process_item (_download_directory_contents (S fuel)) owner repo path
      target_path (JObj fields) result s
    = (Ret {| files := files result;
              directories :=
                directories result
                ++ [mkDirRecord n (str_of_path (truediv target_path n))
                      (ErrorResult (text r))] |}, s2).
Proof.
  intros Hn Ht Hmk Hget Hstatus.
  rewrite (dir_entry_run _ _ _ _ _ _ _ _ _ Hn Ht). rewrite Hmk.
  erewrite failed_listing_run; [eexists; reflexivity| exact Hget | exact Hstatus].
Qed.

End DirectoryEntries.

(* ================================================================== *)
(** ** The loop over a listing *)

Section ListingLoop.
Context {PF : Platform}.

Lemma file_is_not_dir t : eq_str t "file" = true -> eq_str t "dir" = false.
Proof.
  destruct t; simpl; try discriminate.
  intros H. apply String.eqb_eq in H. now subst.
Qed.

(** One turn of the loop appends to the result the record of its entry,
    and nothing else. *)
Lemma process_item_grows recurse owner repo path target_path item acc s acc' s' :
  process_item recurse owner repo path target_path item acc s = (Ret acc', s') ->
  exists new_files new_dirs,
    files acc' = files acc ++ new_files /\
    directories acc' = directories acc ++ new_dirs /\
    map fr_name new_files = names_of_type "file" [item] /\
    map dr_name new_dirs = names_of_type "dir" [item].
Proof.
  unfold process_item, names_of_type. cbn [flat_map].
  destruct (subscript item "name") as [e|name]; [discriminate|].
  unfold bind at 1. cbn [lift ret].
  destruct name; try discriminate.
  unfold bind at 1. cbn [path_join lift ret fst snd].
  destruct (subscript item "type") as [e|t]; [discriminate|].
  unfold bind at 1. cbn [lift ret].
  destruct (eq_str t "file") eqn:Ef.
  - rewrite (file_is_not_dir t Ef).
    unfold bind at 1.
    destruct (_get_file_content item s) as [[data|e|] s1]; try discriminate.
    unfold bind at 1.
    destruct (write_bytes (truediv target_path s0) data s1) as [[[]|e|] s2];
      try discriminate.
    unfold bind at 1.
    destruct (lift (subscript item "size") s2) as [[size|e|] s3];
      try discriminate.
    unfold bind, print, ret. intros H. injection H as <- <-.
    eexists [_], []. cbn. rewrite !app_nil_r. repeat split.
  - destruct (eq_str t "dir") eqn:Ed.
    + unfold bind at 1.
      destruct (mkdir (truediv target_path s0) false true s) as [[[]|e|] s1];
        try discriminate.
      unfold bind, ret.
      destruct (recurse owner repo (child_path path s0)
                  (truediv target_path s0) s1) as [[sub|e|] s2];
        try discriminate.
      intros H. injection H as <- <-.
      eexists [], [_]. cbn. rewrite !app_nil_r. repeat split.
    + unfold ret. intros H. injection H as <- <-.
      exists [], []. cbn. rewrite !app_nil_r. repeat split.
Qed.

Lemma names_of_type_cons type item items :
  names_of_type type (item :: items)
  = names_of_type type [item] ++ names_of_type type items.
Proof. unfold names_of_type. cbn [flat_map]. now rewrite app_nil_r. Qed.

(** The loop appends the records of its entries in the order it meets
    them. *)
Lemma for_each_grows recurse owner repo path target_path items :
  forall acc s acc' s',
    for_each (process_item recurse owner repo path target_path) items acc s
    = (Ret acc', s') ->
    exists new_files new_dirs,
      files acc' = files acc ++ new_files /\
      directories acc' = directories acc ++ new_dirs /\
      map fr_name new_files = names_of_type "file" items /\
      map dr_name new_dirs = names_of_type "dir" items.
Proof.
  induction items as [|item items IH]; intros acc s acc' s' Hrun.
  - injection Hrun as <- <-. exists [], []. rewrite !app_nil_r. repeat split.
  - rewrite for_each_cons in Hrun. unfold bind in Hrun.
    destruct (process_item recurse owner repo path target_path item acc s)
      as [[acc1|e|] s1] eqn:Hitem; try discriminate.
    apply process_item_grows in Hitem as (f1 & d1 & Hf1 & Hd1 & Hnf1 & Hnd1).
    apply IH in Hrun as (f2 & d2 & Hf2 & Hd2 & Hnf2 & Hnd2).
    exists (f1 ++ f2), (d1 ++ d2).
    rewrite Hf2, Hf1, Hd2, Hd1, !map_app, <- !app_assoc.
    rewrite (names_of_type_cons "file"), (names_of_type_cons "dir").
    now rewrite Hnf1, Hnf2, Hnd1, Hnd2.
Qed.

(** A listing that succeeded: the method is its loop. *)
Lemma listing_run fuel owner repo path target_path s r contents items :
  listing_answer (trace s) (self s) owner repo path = inr r ->
  status_code r = 200 ->
  json r = inr contents ->
  iterate contents = inr items ->
  _download_directory_contents (S fuel) owner repo path target_path s
  = match
      for_each (process_item (_download_directory_contents fuel) owner repo
                  path target_path) items empty_listing
        (log (EvGet (contents_url (base_url (self s)) owner repo path)
                    (headers (self s)) (inr r)) s)
    with
    | (Ret result, s') =>
        (Ret (ListingResult (files result) (directories result)), s')
    | (Raise e, s') => (Raise e, s')
    | (OutOfFuel, s') => (OutOfFuel, s')
    end.
Proof.
  intros Hget H200 Hjson Hiter. unfold listing_answer in Hget.
  cbn [_download_directory_contents].
  unfold bind at 1. unfold get_self. unfold bind at 1. unfold http_get.
  rewrite Hget. apply Z.eqb_eq in H200. rewrite H200. cbn [negb].
  rewrite Hjson. unfold bind at 1. cbn [lift ret].
  rewrite Hiter. unfold bind at 1. cbn [lift ret].
  unfold bind.
  match goal with
  | |- context [for_each ?b ?l ?a ?st] =>
      destruct (for_each b l a st) as [[result|e|] s']
  end; reflexivity.
Qed.

(** Fetching the content of a file leaves the file system alone. *)
Lemma get_file_content_quiet file_info s :
  exists evs,
    trace (snd (_get_file_content file_info s)) = trace s ++ evs /\
    forallb (fun ev => negb (touches_fs ev)) evs = true.
Proof.
  assert (Hnone : exists evs : list (Event Path),
             trace s = trace s ++ evs /\
             forallb (fun ev => negb (touches_fs ev)) evs = true).
  { exists []. now rewrite app_nil_r. }
  unfold _get_file_content.
  destruct file_info as [| | | | | |fields]; try exact Hnone.
  destruct (has_inline_content fields).
  - destruct (subscript (JObj fields) "content") as [e|c];
      [rewrite lift_inl; exact Hnone | rewrite lift_inr].
    destruct (py_b64decode c); exact Hnone.
  - destruct (subscript (JObj fields) "download_url") as [e|url];
      [rewrite lift_inl; exact Hnone | rewrite lift_inr].
    unfold bind at 1. unfold get_self.
    destruct url as [| | | |url| |]; try exact Hnone.
    cbn [py_get]. unfold bind, http_get.
    destruct (requests_get (trace s) url (headers (self s))) as [e|r].
    + now exists [EvGet url (headers (self s)) (inl e)].
    + destruct (status_code r =? 200).
      * now exists [EvGet url (headers (self s)) (inr r)].
      * eexists [_; _]. cbn [snd log trace ret print].
        rewrite <- app_assoc. split; reflexivity.
Qed.

(** One completed turn of the loop adds the segment of its entry. *)
Lemma process_item_segment recurse owner repo path target item acc s acc' s' :
  (forall o r p t st,
      exists evs, trace (snd (recurse o r p t st)) = trace st ++ evs) ->
  process_item recurse owner repo path target item acc s = (Ret acc', s') ->
  exists seg, trace s' = trace s ++ seg /\ entry_segment target item seg.
Proof.
  intros Hrec. unfold process_item, entry_segment.
  destruct (subscript item "name") as [e|name]; [discriminate|].
  unfold bind at 1. cbn [lift ret].
  destruct name as [| | | |n| |]; try discriminate.
  unfold bind at 1. cbn [path_join lift ret fst snd].
  destruct (subscript item "type") as [e|t]; [discriminate|].
  unfold bind at 1. cbn [lift ret].
  destruct (eq_str t "file") eqn:Ef.
  - unfold bind at 1.
    destruct (get_file_content_quiet item s) as [fetched [Hfetched Hquiet]].
    destruct (_get_file_content item s) as [[data|e|] s1]; try discriminate.
    unfold bind at 1. unfold write_bytes.
    destruct (path_write_bytes (fs s1) (truediv target n) data) as [e|fs'];
      [discriminate|].
    unfold bind at 1.
    destruct (subscript item "size") as [e|size]; [discriminate|].
    unfold bind, lift, print, ret. intros H. injection H as _ <-.
    cbn [snd] in Hfetched. cbn [log trace]. rewrite Hfetched.
    eexists. rewrite <- !app_assoc. split; [reflexivity|].
    exists fetched, data. now split.
  - destruct (eq_str t "dir") eqn:Ed.
    + unfold bind at 1. unfold mkdir.
      destruct (path_mkdir (fs s) (truediv target n) false true) as [e|fs'];
        [discriminate|].
      unfold bind, ret.
      match goal with
      | |- context [recurse ?o ?r ?p ?t ?st] =>
          destruct (Hrec o r p t st) as [inside Hinside];
          destruct (recurse o r p t st) as [[sub|e|] s2]
      end; try discriminate.
      intros H. injection H as _ <-.
      cbn [snd trace] in Hinside. rewrite Hinside.
      eexists. rewrite <- app_assoc. split; [reflexivity|].
      now exists inside.
    + unfold ret. intros H. injection H as _ <-.
      exists []. now rewrite app_nil_r.
Qed.

(** The completed loop adds the segments of its entries, one after the
    other in the order of the list. *)
Lemma for_each_segments recurse owner repo path target items :
  (forall o r p t st,
      exists evs, trace (snd (recurse o r p t st)) = trace st ++ evs) ->
  forall acc s acc' s',
    for_each (process_item recurse owner repo path target) items acc s
    = (Ret acc', s') ->
    exists segs,
      Forall2 (entry_segment target) items segs /\
      trace s' = trace s ++ concat segs.
Proof.
  intros Hrec.
  induction items as [|item items IH]; intros acc s acc' s' Hrun.
  - injection Hrun as _ <-. exists []. split; [constructor|].
    now rewrite app_nil_r.
  - rewrite for_each_cons in Hrun. unfold bind in Hrun.
    destruct (process_item recurse owner repo path target item acc s)
      as [[acc1|e|] s1] eqn:Hitem; try discriminate.
    apply (process_item_segment _ _ _ _ _ _ _ _ _ _ Hrec) in Hitem
      as (seg & Hseg & Hentry).
    apply IH in Hrun as (segs & Hsegs & Htrace).
    exists (seg :: segs). split; [now constructor|].
    rewrite Htrace, Hseg. cbn [concat]. now rewrite <- app_assoc.
Qed.

(** C6. After a listing answered with status 200 and a JSON array, the
    entries are processed one after the other in the order of that array.
    The trace of a download that returns is the listing request followed,
    entry by entry in listing order, by what each entry does: for a file
    the fetch of its content, its write and its line of output; for a
    directory its [mkdir] and the download of the directory; nothing for
    any other entry.  Accordingly ['files'] holds the names of the entries
    of type file and ['directories'] those of type dir, each in listing
    order. *)
Theorem result_in_listing_order :
  forall fuel owner repo path target_path s r items res s',
    listing_answer (trace s) (self s) owner repo path = inr r ->
    status_code r = 200 ->
    json r = inr (JArr items) ->
    _download_directory_contents (S fuel) owner repo path target_path s
    = (Ret res, s') ->
    exists file_records dir_records segs,
      res = ListingResult file_records dir_records /\
      map fr_name file_records = names_of_type "file" items /\
      map dr_name dir_records = names_of_type "dir" items /\
      Forall2 (entry_segment target_path) items segs /\
      trace s'
      = trace s
        ++ EvGet (contents_url (base_url (self s)) owner repo path)
                 (headers (self s)) (inr r)
           :: concat segs.
Proof.
  intros fuel owner repo path target_path s r items res s'
         Hget H200 Hjson Hrun.
  rewrite (listing_run fuel owner repo path target_path s r (JArr items) items
             Hget H200 Hjson eq_refl) in Hrun.
  match type of Hrun with
  | context [for_each ?b ?l ?a ?st] =>
      destruct (for_each b l a st) as [[result|e|] s1] eqn:Hloop
  end; try discriminate.
  injection Hrun as <- <-.
  assert (Hrec : forall o r p t st,
             exists evs,
               trace (snd (_download_directory_contents fuel o r p t st))
               = trace st ++ evs).
  { intros o r0 p t st.
    destruct (propagates_download fuel o r0 p t st) as [evs [Hevs _]].
    now exists evs. }
  pose proof Hloop as Hnames.
  apply for_each_grows in Hnames as (f & d & Hf & Hd & Hnf & Hnd).
  apply (for_each_segments _ _ _ _ _ _ Hrec) in Hloop
    as (segs & Hsegs & Htrace).
  exists (files result), (directories result), segs.
  rewrite Hf, Hd, Htrace. cbn [log trace app]. rewrite <- app_assoc.
  now repeat split.
Qed.

End ListingLoop.

(* ================================================================== *)
(** ** Failures inside a listing *)

Section Siblings.
Context {PF : Platform}.

(** C3, as the code has it.  In a listing [pre ++ entry :: post]:
    - when [entry] is a directory whose own listing is answered with a
      status other than 200, its record gets the error result as
      ['contents'] and the loop goes on with [post];
    - when [entry] is a file whose download is answered with a status other
      than 200, an ordinary file record is appended (the failure is only
      printed) and the loop goes on with [post];
    - going on with [post] keeps every record made so far, and when it
      completes it has added the files and directories of [post] in
      order. *)
Theorem failed_entry_does_not_stop_siblings :
  forall fuel owner repo path target_path pre fields n post acc acc1 s s1,
    let body := process_item (_download_directory_contents (S fuel))
                  owner repo path target_path in
    let local := truediv target_path n in
    for_each body pre acc s = (Ret acc1, s1) ->
    dict_get "name" fields = Some (JStr n) ->
    (forall fs' r,
        dict_get "type" fields = Some (JStr "dir") ->
        path_mkdir (fs s1) local false true = inr fs' ->
        listing_answer (trace s1 ++ [EvMkdir local false true None])
          (self s1) owner repo (child_path path n) = inr r ->
        status_code r <> 200 ->
        exists s2,
          for_each body (pre ++ JObj fields :: post) acc s
          = for_each body post
              {| files := files acc1;
                 directories :=
                   directories acc1
                   ++ [mkDirRecord n (str_of_path local)
                         (ErrorResult (text r))] |} s2) /\
    (forall url r size fs',
        dict_get "type" fields = Some (JStr "file") ->
        has_inline_content fields = false ->
        dict_get "download_url" fields = Some (JStr url) ->
        requests_get (trace s1) url (headers (self s1)) = inr r ->
        status_code r <> 200 ->
        path_write_bytes (fs s1) local [] = inr fs' ->
        dict_get "size" fields = Some size ->
        exists s2,
          for_each body (pre ++ JObj fields :: post) acc s
          = for_each body post
              {| files := files acc1
                          ++ [mkFileRecord n (str_of_path local) size];
                 directories := directories acc1 |} s2) /\
    (forall acc2 s2 final s',
        for_each body post acc2 s2 = (Ret final, s') ->
        exists new_files new_dirs,
          files final = files acc2 ++ new_files /\
          directories final = directories acc2 ++ new_dirs /\
          map fr_name new_files = names_of_type "file" post /\
          map dr_name new_dirs = names_of_type "dir" post).
Proof.
  intros fuel owner repo path target_path pre fields n post acc acc1 s s1
         body local Hpre Hn.
  assert (Hsplit : for_each body (pre ++ JObj fields :: post) acc s
                   = bind (body (JObj fields) acc1) (for_each body post) s1).
  { rewrite for_each_app. rewrite (bind_Ret _ _ _ _ _ Hpre).
    apply for_each_cons. }
  split; [|split].
  - intros fs' r Ht Hmk Hget Hstatus.
    destruct (failed_subdirectory_run fuel owner repo path target_path fields
                n acc1 s1 fs' r Hn Ht Hmk Hget Hstatus) as [s2 Hrun].
    exists s2. rewrite Hsplit. subst body. now rewrite (bind_Ret _ _ _ _ _ Hrun).
  - intros url r size fs' Ht Hc Hu Hreq Hstatus Hw Hsize.
    pose proof (download_run fields url r s1 Hc Hu Hreq) as Hcontent.
    apply Z.eqb_neq in Hstatus. rewrite Hstatus in Hcontent.
    pose proof (file_entry_run (_download_directory_contents (S fuel))
                  owner repo path target_path fields n acc1 s1 _ _
                  Hn Ht Hcontent) as Hrun.
    cbn -[String.append] in Hrun. fold local in Hrun.
    rewrite Hw, Hsize in Hrun.
    eexists. rewrite Hsplit. subst body. now rewrite (bind_Ret _ _ _ _ _ Hrun).
  - intros acc2 s2 final s' Hrun. subst body.
    now apply for_each_grows in Hrun.
Qed.

End Siblings.

(* ================================================================== *)
(** ** Exceptions of the file system *)

Section WriteFailures.
Context {PF : Platform}.

(** C7. A [write_bytes] that fails is not caught anywhere.  For the entry
    it belongs to, the exception ends the turn of the loop right at the
    write, with no record made; and whenever a fetch contains such a failed
    write, at whatever depth of the tree, that exception is what
    [fetch_repository] ends with. *)
Theorem write_failure_reaches_caller :
  (forall recurse owner repo path target_path fields n result s data s1 x,
      dict_get "name" fields = Some (JStr n) ->
      dict_get "type" fields = Some (JStr "file") ->
      _get_file_content (JObj fields) s = (Ret data, s1) ->
      path_write_bytes (fs s1) (truediv target_path n) data = inl x ->
      process_item recurse owner repo path target_path (JObj fields) result s
      = (Raise x,
         log (EvWriteBytes (truediv target_path n) data (Some x)) s1)) /\
  (forall fuel repo_owner repo_name target s evs p data x,
      trace (snd (fetch_repository fuel repo_owner repo_name target s))
      = trace s ++ evs ->
      In (EvWriteBytes p data (Some x)) evs ->
      fst (fetch_repository fuel repo_owner repo_name target s) = Raise x).
Proof.
  split.
  - intros recurse owner repo path target_path fields n result s data s1 x
           Hn Ht Hget Hw.
    rewrite (file_entry_run _ _ _ _ _ _ _ _ _ _ _ Hn Ht Hget).
    now rewrite Hw.
  - intros fuel repo_owner repo_name target s evs p data x Htrace Hin.
    destruct (propagates_fetch fuel repo_owner repo_name target s)
      as [evs' [Htrace' Hraise]].
    rewrite Htrace' in Htrace. apply app_inv_head in Htrace. subst evs'.
    eauto.
Qed.

End WriteFailures.

(* ================================================================== *)
(** ** Termination *)

Section Termination.
Context {PF : Platform}.

Lemma finishes_bind {A B} me (m : M A) (k : A -> M B) :
  finishes me m -> keeps_self m -> (forall a, finishes me (k a)) ->
  finishes me (bind m k).
Proof.
  intros Hm Hself Hk s Hs. specialize (Hm s Hs). specialize (Hself s).
  unfold bind. destruct (m s) as [[a|e|] s1]; simpl in *.
  - apply Hk. congruence.
  - discriminate.
  - contradiction.
Qed.

Lemma finishes_ret {A} me (a : A) : finishes me (ret a).
Proof. intros s _. discriminate. Qed.

Lemma finishes_raise {A} me (e : Exn) : finishes me (@raise _ A e).
Proof. intros s _. discriminate. Qed.

Lemma finishes_lift {A} me (x : Exn + A) : finishes me (lift x).
Proof. destruct x; intros s _; discriminate. Qed.

Lemma finishes_get_self me : finishes me get_self.
Proof. intros s _. discriminate. Qed.

Lemma finishes_print me line : finishes me (print line).
Proof. intros s _. discriminate. Qed.

Lemma finishes_http_get me url hdrs : finishes me (http_get url hdrs).
Proof.
  intros s _. unfold http_get.
  destruct (requests_get (trace s) url hdrs); discriminate.
Qed.

Lemma finishes_mkdir me p parents exist_ok :
  finishes me (mkdir p parents exist_ok).
Proof.
  intros s _. unfold mkdir.
  destruct (path_mkdir (fs s) p parents exist_ok); discriminate.
Qed.

Lemma finishes_write_bytes me p data : finishes me (write_bytes p data).
Proof.
  intros s _. unfold write_bytes.
  destruct (path_write_bytes (fs s) p data); discriminate.
Qed.

#[local] Hint Resolve finishes_ret finishes_raise finishes_lift
  finishes_get_self finishes_print finishes_http_get finishes_mkdir
  finishes_write_bytes : effects.

#[local] Hint Resolve keeps_self_ret keeps_self_raise keeps_self_lift
  keeps_self_get_self keeps_self_print keeps_self_http_get keeps_self_mkdir
  keeps_self_write_bytes keeps_self_get_file_content : effects.

Ltac finish :=
  repeat first
    [ solve [auto with effects]
    | apply finishes_bind; [| |intros]
    | apply keeps_self_bind; [|intros]
    | match goal with
      | |- finishes _ (if ?c then _ else _) => destruct c
      | |- finishes _ (match ?x with _ => _ end) => destruct x
      | |- keeps_self (if ?c then _ else _) => destruct c
      | |- keeps_self (match ?x with _ => _ end) => destruct x
      end ].

Lemma finishes_get_file_content me file_info :
  finishes me (_get_file_content file_info).
Proof. unfold _get_file_content, py_get. finish. Qed.

Lemma finishes_for_each {A Acc} me (body : A -> Acc -> M Acc) l :
  (forall x acc, In x l -> finishes me (body x acc)) ->
  (forall x acc, keeps_self (body x acc)) ->
  forall acc, finishes me (for_each body l acc).
Proof.
  intros Hbody Hself. induction l as [|x l IH]; intros acc; simpl.
  - apply finishes_ret.
  - apply finishes_bind.
    + apply Hbody. now left.
    + apply Hself.
    + intros a. apply IH. intros y acc' Hin. apply Hbody. now right.
Qed.

Lemma subscript_inr v key x :
  subscript v key = inr x ->
  exists fields, v = JObj fields /\ dict_get key fields = Some x.
Proof.
  destruct v; try discriminate. simpl.
  destruct (dict_get key fields) eqn:E; [|discriminate].
  intros H. injection H as <-. now exists fields.
Qed.

Lemma path_join_inr target_path name joined :
  path_join target_path name = inr joined ->
  exists n, name = JStr n /\ joined = (truediv target_path n, n).
Proof.
  destruct name; try discriminate. simpl.
  intros H. injection H as <-. now exists s.
Qed.

Lemma eq_str_true t lit : eq_str t lit = true -> t = JStr lit.
Proof.
  destruct t; try discriminate. simpl.
  intros H. apply String.eqb_eq in H. now subst.
Qed.

Ltac as_finishes s Hs := refine ((_ : finishes _ _) s Hs).

(** A turn of the loop finishes when the recursion into its entry does. *)
Lemma finishes_process_item me recurse owner repo path target_path item result :
  (forall fields n,
      item = JObj fields ->
      dict_get "name" fields = Some (JStr n) ->
      dict_get "type" fields = Some (JStr "dir") ->
      finishes me (recurse owner repo (child_path path n)
                     (truediv target_path n))) ->
  (forall o r p t, keeps_self (recurse o r p t)) ->
  finishes me (process_item recurse owner repo path target_path item result).
Proof.
  intros Hrec Hself s Hs. pose proof (finishes_get_file_content me).
  unfold process_item.
  destruct (subscript item "name") as [e|name] eqn:En;
    [rewrite lift_inl; discriminate | rewrite lift_inr].
  destruct (path_join target_path name) as [e|joined] eqn:Ej;
    [rewrite lift_inl; discriminate | rewrite lift_inr].
  destruct (subscript item "type") as [e|t] eqn:Et;
    [rewrite lift_inl; discriminate | rewrite lift_inr].
  destruct (eq_str t "file") eqn:Ef.
  - as_finishes s Hs. finish.
  - destruct (eq_str t "dir") eqn:Ed; [|discriminate].
    apply subscript_inr in En as (fields & -> & Hn).
    apply path_join_inr in Ej as (n & -> & ->).
    apply eq_str_true in Ed as ->.
    simpl in Et. destruct (dict_get "type" fields) as [t|] eqn:Ht;
      [|discriminate].
    injection Et as ->.
    as_finishes s Hs. cbn [fst snd].
    apply finishes_bind; [auto with effects..|intros _].
    apply finishes_bind; [eauto|apply Hself|intros sub].
    apply finishes_ret.
Qed.

Lemma finishes_download depth :
  forall fuel owner repo path target_path me,
    depth_bounded depth me owner repo path ->
    (depth < fuel)%nat ->
    finishes me (_download_directory_contents fuel owner repo path target_path).
Proof.
  induction depth as [|depth IH];
    intros fuel owner repo path target_path me Hdepth Hfuel s Hs;
    (destruct fuel as [|fuel]; [lia|]);
    cbn [_download_directory_contents];
    unfold bind at 1; unfold get_self; unfold bind at 1; unfold http_get;
    (destruct (requests_get (trace s)
                 (contents_url (base_url (self s)) owner repo path)
                 (headers (self s))) as [e|r] eqn:Hget; [discriminate|]);
    (destruct (status_code r =? 200) eqn:H200; [|discriminate]);
    cbn [negb];
    (destruct (json r) as [e|contents] eqn:Hjson;
     [rewrite lift_inl; discriminate | rewrite lift_inr]);
    (destruct (iterate contents) as [e|items] eqn:Hiter;
     [rewrite lift_inl; discriminate | rewrite lift_inr]);
    apply Z.eqb_eq in H200; subst me;
    match goal with
    | |- fst (bind _ _ ?st) <> _ =>
        refine ((_ : finishes (self s) _) st eq_refl)
    end;
    (apply finishes_bind;
     [|apply keeps_self_for_each; intros; apply keeps_self_process_item;
       apply keeps_self_download
      |intros; apply finishes_ret]);
    apply finishes_for_each;
    try (intros; apply keeps_self_process_item; apply keeps_self_download);
    intros item acc Hin; apply finishes_process_item;
    try apply keeps_self_download;
    intros fields n -> Hn Ht;
    pose proof (Hdepth (trace s) r contents items fields n Hget H200 Hjson
                  Hiter Hin Hn Ht) as Hchild.
  - contradiction.
  - apply IH; [exact Hchild | lia].
Qed.

(** *** More fuel changes nothing once the call has come to an end *)

Lemma bind_agree {A B} (m : M A) (k1 k2 : A -> M B) s :
  (forall a s', fst (k2 a s') <> OutOfFuel -> k1 a s' = k2 a s') ->
  fst (bind m k2 s) <> OutOfFuel -> bind m k1 s = bind m k2 s.
Proof. unfold bind. destruct (m s) as [[a|e|] s']; auto. Qed.

Lemma bind_ends {A B} (m : M A) (k : A -> M B) s :
  fst (bind m k s) <> OutOfFuel -> fst (m s) <> OutOfFuel.
Proof. unfold bind. now destruct (m s) as [[a|e|] s']. Qed.

Lemma process_item_more_fuel rec1 rec2 owner repo path target_path item acc s :
  (forall o r p t st,
      fst (rec2 o r p t st) <> OutOfFuel -> rec1 o r p t st = rec2 o r p t st) ->
  fst (process_item rec2 owner repo path target_path item acc s) <> OutOfFuel ->
  process_item rec1 owner repo path target_path item acc s
  = process_item rec2 owner repo path target_path item acc s.
Proof.
  intros Hrec. unfold process_item.
  apply bind_agree. intros name s1.
  apply bind_agree. intros joined s2.
  apply bind_agree. intros t s3.
  destruct (eq_str t "file"); [reflexivity|].
  destruct (eq_str t "dir"); [|reflexivity].
  apply bind_agree. intros _ s4 Hend.
  apply bind_ends in Hend. unfold bind. now rewrite Hrec.
Qed.

Lemma for_each_more_fuel rec1 rec2 owner repo path target_path items :
  (forall o r p t st,
      fst (rec2 o r p t st) <> OutOfFuel -> rec1 o r p t st = rec2 o r p t st) ->
  forall acc s,
    fst (for_each (process_item rec2 owner repo path target_path) items acc s)
    <> OutOfFuel ->
    for_each (process_item rec1 owner repo path target_path) items acc s
    = for_each (process_item rec2 owner repo path target_path) items acc s.
Proof.
  intros Hrec. induction items as [|item items IH]; intros acc s Hend.
  - reflexivity.
  - rewrite !for_each_cons in *. unfold bind in *.
    destruct (process_item rec2 owner repo path target_path item acc s)
      as [[acc1|e|] s1] eqn:E2.
    + rewrite (process_item_more_fuel rec1 rec2); [|assumption|now rewrite E2].
      rewrite E2. now apply IH.
    + rewrite (process_item_more_fuel rec1 rec2); [|assumption|now rewrite E2].
      now rewrite E2.
    + now contradiction Hend.
Qed.

Lemma download_more_fuel fuel :
  forall owner repo path target_path s,
    fst (_download_directory_contents fuel owner repo path target_path s)
    <> OutOfFuel ->
    _download_directory_contents (S fuel) owner repo path target_path s
    = _download_directory_contents fuel owner repo path target_path s.
Proof.
  induction fuel as [|fuel IH]; intros owner repo path target_path s.
  - intros Hend. now contradiction Hend.
  - rewrite (download_S (S fuel)), (download_S fuel).
    apply bind_agree. intros me s1.
    apply bind_agree. intros r s2.
    destruct (negb (status_code r =? 200)); [reflexivity|].
    apply bind_agree. intros contents s3.
    apply bind_agree. intros items s4 Hend.
    apply bind_ends in Hend.
    unfold bind.
    rewrite (for_each_more_fuel (_download_directory_contents (S fuel))
               (_download_directory_contents fuel)); auto.
Qed.

Lemma download_enough_fuel extra fuel owner repo path target_path s :
  fst (_download_directory_contents fuel owner repo path target_path s)
  <> OutOfFuel ->
  _download_directory_contents (extra + fuel) owner repo path target_path s
  = _download_directory_contents fuel owner repo path target_path s.
Proof.
  intros Hend. induction extra as [|extra IH]; [reflexivity|].
  cbn [Nat.add]. rewrite download_more_fuel; [exact IH|].
  now rewrite IH.
Qed.

(** *** In a world that does not fail, the call returns *)

Lemma returns_bind {A B} me (m : M A) (k : A -> M B) :
  returns me m -> keeps_self m -> (forall a, returns me (k a)) ->
  returns me (bind m k).
Proof.
  intros Hm Hself Hk s Hs. specialize (Hself s).
  destruct (Hm s Hs) as (a & s1 & Hrun). rewrite Hrun in Hself.
  rewrite (bind_Ret _ _ _ _ _ Hrun). apply Hk. simpl in Hself. congruence.
Qed.

Lemma returns_ret {A} me (a : A) : returns me (ret a).
Proof. intros s _. now exists a, s. Qed.

Lemma returns_print me line : returns me (print line).
Proof. intros s _. now eexists _, _. Qed.

Lemma returns_write_bytes me p data :
  fs_never_fails -> returns me (write_bytes p data).
Proof.
  intros [Hw _] s _. unfold write_bytes.
  destruct (Hw (fs s) p data) as [files' ->]. now eexists _, _.
Qed.

Lemma returns_mkdir me p :
  fs_never_fails -> returns me (mkdir p false true).
Proof.
  intros [_ Hm] s _. unfold mkdir.
  destruct (Hm (fs s) p) as [files' ->]. now eexists _, _.
Qed.

Lemma returns_get_file_content me fields :
  content_served me fields -> returns me (_get_file_content (JObj fields)).
Proof.
  unfold content_served, _get_file_content. intros Hserved s Hs.
  destruct (has_inline_content fields).
  - destruct Hserved as (encoded & data & Hc & Hdec).
    unfold subscript. rewrite Hc, lift_inr. simpl. rewrite Hdec.
    now eexists _, _.
  - destruct Hserved as (url & Hu & Hanswer).
    unfold subscript. rewrite Hu, lift_inr.
    unfold bind at 1. unfold get_self. unfold bind at 1.
    cbn [py_get]. unfold http_get.
    destruct (Hanswer (trace s)) as [r Hr]. rewrite Hs, Hr.
    destruct (status_code r =? 200); now eexists _, _.
Qed.

Lemma returns_for_each {A Acc} me (body : A -> Acc -> M Acc) l :
  (forall x acc, In x l -> returns me (body x acc)) ->
  (forall x acc, keeps_self (body x acc)) ->
  forall acc, returns me (for_each body l acc).
Proof.
  intros Hbody Hself. induction l as [|x l IH]; intros acc; simpl.
  - apply returns_ret.
  - apply returns_bind.
    + apply Hbody. now left.
    + apply Hself.
    + intros a. apply IH. intros y acc' Hin. apply Hbody. now right.
Qed.

Lemma returns_download depth :
  fs_never_fails ->
  forall fuel owner repo path target_path me,
    well_served depth me owner repo path ->
    (depth < fuel)%nat ->
    returns me (_download_directory_contents fuel owner repo path target_path).
Proof.
  intros Hfs.
  induction depth as [|depth IH];
    intros fuel owner repo path target_path me Hserved Hfuel s Hs;
    (destruct fuel as [|fuel]; [lia|]);
    (destruct (Hserved (trace s)) as (r & Hget & Hitems));
    subst me;
    (destruct (Z.eq_dec (status_code r) 200) as [H200|Hfailed];
     [|rewrite (failed_listing_run _ _ _ _ _ _ _ Hget Hfailed);
       now eexists _, _]);
    (destruct (Hitems H200) as (items & Hjson & Hentries));
    rewrite (listing_run fuel owner repo path target_path s r (JArr items)
               items Hget H200 Hjson eq_refl);
    match goal with
    | |- context [for_each ?b ?l ?a ?st] =>
        assert (Hloop : returns (self s) (for_each b l a));
        [|destruct (Hloop st eq_refl) as (result & s' & ->); now eexists _, _]
    end;
    (apply returns_for_each;
     [|intros; apply keeps_self_process_item; apply keeps_self_download]);
    intros item acc Hin;
    destruct (Hentries item Hin)
      as (fields & n & t & -> & Hn & Ht & Hfile & Hdir);
    intros st Hst; unfold process_item, subscript;
    rewrite Hn, lift_inr; cbn [path_join]; rewrite lift_inr;
    rewrite Ht, lift_inr; cbn [fst snd];
    (destruct (eq_str t "file") eqn:Ef;
     [destruct (Hfile eq_refl) as [[size Hsize] Hcontent];
      refine ((_ : returns (self s) _) st Hst);
      apply returns_bind;
      [now apply returns_get_file_content
      |apply keeps_self_get_file_content|intros data];
      apply returns_bind;
      [now apply returns_write_bytes|apply keeps_self_write_bytes|intros _];
      unfold subscript; rewrite Hsize;
      apply returns_bind;
      [apply returns_ret|apply keeps_self_ret|intros size'];
      apply returns_bind;
      [apply returns_print|apply keeps_self_print|intros _];
      apply returns_ret
     |]);
    (destruct (eq_str t "dir") eqn:Ed; [|now eexists _, _]);
    specialize (Hdir eq_refl).
  - contradiction.
  - refine ((_ : returns (self s) _) st Hst).
    apply returns_bind;
      [now apply returns_mkdir|apply keeps_self_mkdir|intros _].
    apply returns_bind;
      [apply IH; [exact Hdir|lia]|apply keeps_self_download|intros sub].
    apply returns_ret.
Qed.


End Termination.

(* ================================================================== *)
(** ** The properties on the two-directory repository *)

Lemma directory_created_then_recursed_witness :
  fst (ProjectDemo.body (JObj ProjectDemo.src_fields) empty_listing
         ProjectDemo.checkout)
  = Ret {| files := []; directories := [ProjectDemo.src_record] |} /\
  exists rest,
    trace (snd (ProjectDemo.body (JObj ProjectDemo.src_fields) empty_listing
                  ProjectDemo.checkout))
    = []
      ++ EvMkdir "Hello-World/src" false true None
         :: EvGet (Demo.api "src") (headers Demo.client)
                  (Demo.answer ProjectDemo.project (Demo.api "src"))
         :: rest.
Proof.
  destruct (@directory_created_then_recursed ProjectDemo.pf
              (@_download_directory_contents ProjectDemo.pf 1)
              "octocat" "Hello-World" "" "Hello-World"
              ProjectDemo.src_fields "src" empty_listing
              ProjectDemo.checkout eq_refl eq_refl) as [Hrun Htrace].
  split.
  - exact (eq_trans (f_equal fst Hrun) eq_refl).
  - exact (Htrace 0%nat
             [("Hello-World", Demo.Dir); ("Hello-World/src", Demo.Dir)]
             eq_refl).
Defined.

Lemma result_in_listing_order_witness :
  exists file_records dir_records segs,
    ListingResult [ProjectDemo.readme_record; ProjectDemo.license_record]
                  [ProjectDemo.docs_record; ProjectDemo.src_record]
    = ListingResult file_records dir_records /\
    map fr_name file_records
    = @names_of_type "file" ProjectDemo.root_items /\
    map dr_name dir_records
    = @names_of_type "dir" ProjectDemo.root_items /\
    Forall2 (@entry_segment ProjectDemo.pf "Hello-World")
      ProjectDemo.root_items segs /\
    trace (snd ProjectDemo.download)
    = trace ProjectDemo.checkout
      ++ EvGet (Demo.api "") (headers Demo.client)
               (Demo.ok_json (JArr ProjectDemo.root_items))
         :: concat segs.
Proof.
  apply (@result_in_listing_order ProjectDemo.pf 1 "octocat" "Hello-World" ""
           "Hello-World" ProjectDemo.checkout
           {| status_code := 200; text := ""; content := [];
              json := inr (JArr ProjectDemo.root_items) |}
           ProjectDemo.root_items _ (snd ProjectDemo.download)).
  - reflexivity.
  - reflexivity.
  - reflexivity.
  - reflexivity.
Defined.

Lemma failed_entry_does_not_stop_siblings_witness :
  (exists s2,
      ProjectDemo.loop ProjectDemo.root_items
      = for_each ProjectDemo.body
          [JObj ProjectDemo.license_fields; JObj ProjectDemo.src_fields;
           ProjectDemo.link_entry "latest"]
          {| files := [ProjectDemo.readme_record];
             directories := [ProjectDemo.docs_record] |} s2) /\
  (exists s2,
      ProjectDemo.loop ProjectDemo.root_items
      = for_each ProjectDemo.body
          [JObj ProjectDemo.src_fields; ProjectDemo.link_entry "latest"]
          {| files := [ProjectDemo.readme_record; ProjectDemo.license_record];
             directories := [ProjectDemo.docs_record] |} s2).
Proof.
  split.
  - apply (proj1 (@failed_entry_does_not_stop_siblings ProjectDemo.pf 0
                    "octocat" "Hello-World" "" "Hello-World"
                    [ProjectDemo.readme] ProjectDemo.docs_fields "docs"
                    [JObj ProjectDemo.license_fields;
                     JObj ProjectDemo.src_fields;
                     ProjectDemo.link_entry "latest"]
                    empty_listing
                    (ProjectDemo.listing_of
                       (ProjectDemo.loop [ProjectDemo.readme]))
                    ProjectDemo.checkout
                    (snd (ProjectDemo.loop [ProjectDemo.readme]))
                    eq_refl eq_refl)
             (fs (snd (ProjectDemo.loop
                         [ProjectDemo.readme; JObj ProjectDemo.docs_fields])))
             {| status_code := 500; text := "boom"; content := [];
                json := inl JSONDecodeError |}).
    + reflexivity.
    + reflexivity.
    + reflexivity.
    + simpl. lia.
  - apply (proj1 (proj2
             (@failed_entry_does_not_stop_siblings ProjectDemo.pf 0
                "octocat" "Hello-World" "" "Hello-World"
                [ProjectDemo.readme; JObj ProjectDemo.docs_fields]
                ProjectDemo.license_fields "LICENSE"
                [JObj ProjectDemo.src_fields; ProjectDemo.link_entry "latest"]
                empty_listing
                (ProjectDemo.listing_of
                   (ProjectDemo.loop
                      [ProjectDemo.readme; JObj ProjectDemo.docs_fields]))
                ProjectDemo.checkout
                (snd (ProjectDemo.loop
                        [ProjectDemo.readme; JObj ProjectDemo.docs_fields]))
                eq_refl eq_refl))
             (Demo.raw "LICENSE")
             {| status_code := 404; text := "Not Found"; content := [];
                json := inl JSONDecodeError |}
             (JNum 3)
             (fs (snd (ProjectDemo.loop
                         [ProjectDemo.readme; JObj ProjectDemo.docs_fields;
                          JObj ProjectDemo.license_fields])))).
    + reflexivity.
    + reflexivity.
    + reflexivity.
    + reflexivity.
    + simpl. lia.
    + reflexivity.
    + reflexivity.
Defined.

(** C3 as stated fails for downloads: a fetch whose one download is
    answered 503 returns what a fetch with an empty file returns. *)
Lemma failed_download_leaves_no_mark : ~ failures_recorded_in_result.
Proof.
  intros [failed_in H].
  pose (res := ListingResult [ProjectDemo.readme_record] []).
  pose proof (H (ProjectDemo.one_file (Demo.failed 503 "try again")) 2%nat
                "octocat" "Hello-World" None
                (Demo.start
                   (ProjectDemo.one_file (Demo.failed 503 "try again")) [])
                res
                (snd (ProjectDemo.one_file_fetch (Demo.failed 503 "try again")))
                eq_refl eq_refl) as [_ Hbad].
  pose proof (H (ProjectDemo.one_file (Demo.ok_raw [])) 2%nat
                "octocat" "Hello-World" None
                (Demo.start (ProjectDemo.one_file (Demo.ok_raw [])) []) res
                (snd (ProjectDemo.one_file_fetch (Demo.ok_raw [])))
                eq_refl eq_refl) as [Hgood _].
  assert (Hmark : failed_in res = true).
  { apply Hbad.
    exists (Demo.raw "README.md"), (headers Demo.client),
      {| status_code := 503; text := "try again"; content := [];
         json := inl JSONDecodeError |}.
    split; [|simpl; lia].
    vm_compute. right. right. right. left. reflexivity. }
  destruct (Hgood Hmark) as (url & hdrs & r & Hin & Hstatus).
  vm_compute in Hin.
  repeat (destruct Hin as [Hin|Hin];
          [try discriminate Hin; injection Hin as _ _ <-;
           now apply Hstatus|]).
  exact Hin.
Qed.

Lemma write_failure_reaches_caller_witness :
  fst (@process_item ProjectDemo.clashing
         (@_download_directory_contents ProjectDemo.clashing 0)
         "octocat" "Hello-World" "docs" "Hello-World/docs"
         (Demo.file_entry "x" 12 (Demo.raw "docs/x")) empty_listing
         (Demo.start ProjectDemo.clashing
            [("Hello-World/docs", Demo.Dir); ("Hello-World/docs/x", Demo.Dir)]))
  = Raise (OSError "IsADirectoryError") /\
  fst ProjectDemo.clash_fetch = Raise (OSError "IsADirectoryError").
Proof.
  split.
  - exact (f_equal fst
             (proj1 (@write_failure_reaches_caller ProjectDemo.clashing)
               (@_download_directory_contents ProjectDemo.clashing 0)
               "octocat" "Hello-World" "docs" "Hello-World/docs"
               [ ("name", JStr "x"); ("type", JStr "file"); ("size", JNum 12);
                 ("download_url", JStr (Demo.raw "docs/x")) ]
               "x" empty_listing
               (Demo.start ProjectDemo.clashing
                  [("Hello-World/docs", Demo.Dir);
                   ("Hello-World/docs/x", Demo.Dir)])
               Demo.hello
               (log (EvGet (Demo.raw "docs/x") (headers Demo.client)
                           (Demo.ok_raw Demo.hello))
                    (Demo.start ProjectDemo.clashing
                       [("Hello-World/docs", Demo.Dir);
                        ("Hello-World/docs/x", Demo.Dir)]))
               (OSError "IsADirectoryError")
               eq_refl eq_refl eq_refl eq_refl)).
  - apply (proj2 (@write_failure_reaches_caller ProjectDemo.clashing) 3%nat
             "octocat" "Hello-World" None (Demo.start ProjectDemo.clashing [])
             (trace (snd ProjectDemo.clash_fetch))
             "Hello-World/docs/x" Demo.hello (OSError "IsADirectoryError")).
    + reflexivity.
    + vm_compute. do 8 right. left. reflexivity.
Defined.

Module ForgivingDemo.
Import Demo ProjectDemo.

Lemma never_fails : @fs_never_fails forgiving.
Proof. split; intros; eexists; reflexivity. Qed.

Ltac entry_of Hin :=
  simpl in Hin;
  repeat (destruct Hin as [Hin|Hin]; [try injection Hin as <-|]);
  try contradiction.

Lemma depth_one : @depth_bounded forgiving 1 client "octocat" "Hello-World" "".
Proof.
  intros history r contents items fields n Hget H200 Hjson Hiter Hin Hn Ht.
  vm_compute in Hget. injection Hget as <-.
  vm_compute in Hjson. injection Hjson as <-.
  vm_compute in Hiter. injection Hiter as <-.
  entry_of Hin; vm_compute in Ht; try discriminate Ht;
    vm_compute in Hn; injection Hn as <-;
    intros history' r' contents' items' fields' n' Hget' H200' Hjson' Hiter'
           Hin' Hn' Ht';
    vm_compute in Hget'; injection Hget' as <-;
    try discriminate H200'.
  vm_compute in Hjson'. injection Hjson' as <-.
  vm_compute in Hiter'. injection Hiter' as <-.
  entry_of Hin'. vm_compute in Ht'. discriminate Ht'.
Qed.

Lemma served : @well_served forgiving 1 client "octocat" "Hello-World" "".
Proof.
  intros history. eexists. split; [reflexivity|]. intros _.
  eexists. split; [reflexivity|]. intros item Hin.
  simpl in Hin.
  repeat (destruct Hin as [<-|Hin]); try contradiction;
    (eexists _, _, _; split; [reflexivity|];
     split; [reflexivity|]; split; [reflexivity|];
     split; intros Hkind; try discriminate Hkind).
  - split; [now eexists|]. eexists. split; [reflexivity|].
    intros h. eexists. reflexivity.
  - intros history'. eexists. split; [reflexivity|].
    intros H200. discriminate H200.
  - split; [now eexists|]. eexists. split; [reflexivity|].
    intros h. eexists. reflexivity.
  - intros history'. eexists. split; [reflexivity|]. intros _.
    eexists. split; [reflexivity|]. intros item [<-|[]].
    eexists _, _, _. split; [reflexivity|].
    split; [reflexivity|]. split; [reflexivity|].
    split; intros Hkind'; try discriminate Hkind'.
    split; [now eexists|]. eexists _, _. split; reflexivity.
Qed.

End ForgivingDemo.


(** The one-file repository is a tree without directories. *)
Lemma hello_world_is_flat :
  @depth_bounded FileDemo.pf 0 Demo.client "octocat" "Hello-World" "".
Proof.
  intros history r contents items fields n Hget H200 Hjson Hiter Hin Hn Ht.
  unfold listing_answer in Hget. cbn [requests_get FileDemo.pf Demo.platform]
    in Hget.
  assert (Hr : r = {| status_code := 200; text := ""; content := [];
                      json := inr (JArr [Demo.file_entry "README.md" 12
                                           (Demo.raw "README.md")]) |}).
  { destruct (Demo.requested history _); vm_compute in Hget;
      now injection Hget as <-. }
  subst r. vm_compute in Hjson. injection Hjson as <-.
  vm_compute in Hiter. injection Hiter as <-.
  destruct Hin as [Hin|[]]. injection Hin as <-.
  vm_compute in Ht. discriminate Ht.
Qed.


(* ================================================================== *)
(** ** The completion query *)

Section Dictionaries.
Context {V : Type}.

Lemma dict_get_set_same key (v : V) d : dict_get key (dict_set key v d) = Some v.
Proof.
  induction d as [|[k w] d IH]; simpl.
  - now rewrite String.eqb_refl.
  - destruct (String.eqb k key) eqn:E; simpl; now rewrite E.
Qed.

Lemma dict_get_set_other key key' (v : V) d :
  key' <> key -> dict_get key' (dict_set key v d) = dict_get key' d.
Proof.
  intros Hne. induction d as [|[k w] d IH]; simpl.
  - apply String.eqb_neq in Hne. rewrite String.eqb_sym in Hne.
    now rewrite Hne.
  - destruct (String.eqb k key) eqn:E; simpl.
    + apply String.eqb_eq in E. subst k.
      assert (String.eqb key key' = false) as ->; [|reflexivity].
      apply String.eqb_neq. congruence.
    + destruct (String.eqb k key'); auto.
Qed.

Lemma dict_get_absent key (d : list (string * V)) :
  ~ In key (map fst d) -> dict_get key d = None.
Proof.
  induction d as [|[k w] d IH]; simpl; [reflexivity|].
  intros Hnot. destruct (String.eqb k key) eqn:E.
  - apply String.eqb_eq in E. tauto.
  - apply IH. tauto.
Qed.

(** Merging the items of a dictionary into another one: its keys win. *)
Lemma dict_get_merge key (extra : list (string * V)) :
  NoDup (map fst extra) ->
  forall d,
    dict_get key (dict_merge d extra)
    = match dict_get key extra with
      | Some v => Some v
      | None => dict_get key d
      end.
Proof.
  unfold dict_merge.
  induction extra as [|[k w] extra IH]; intros Hnodup d; simpl.
  - reflexivity.
  - inversion Hnodup as [|? ? Hnot Hrest]; subst.
    rewrite (IH Hrest). destruct (String.eqb k key) eqn:E.
    + apply String.eqb_eq in E. subst k.
      rewrite (dict_get_absent key extra Hnot). apply dict_get_set_same.
    + destruct (dict_get key extra); [reflexivity|].
      apply dict_get_set_other. apply String.eqb_neq.
      now rewrite String.eqb_sym.
Qed.

End Dictionaries.

Section Query.
Context {PF : Platform}.

Lemma append_assoc a b c : (a +++ b) +++ c = a +++ b +++ c.
Proof. induction a as [|x a IH]; simpl; [reflexivity|now rewrite IH]. Qed.

Lemma append_nil_r a : a +++ "" = a.
Proof. induction a as [|x a IH]; simpl; [reflexivity|now rewrite IH]. Qed.

Lemma read_context_file_run file_path context s :
  read_context_file file_path context s
  = match open_read (fs s) file_path with
    | inr file_content =>
        (Ret (context +++ context_block file_path file_content),
         log (EvOpenRead file_path (inr file_content)) s)
    | inl e =>
        (Ret context,
         log (EvPrint ("Error reading context file " +++ file_path +++ ": "
                       +++ str_of_exn e))
           (log (EvOpenRead file_path (inl e)) s))
    end.
Proof.
  unfold read_context_file, try_except, bind, read_text.
  now destruct (open_read (fs s) file_path).
Qed.

(** The loop over the context files: no file stops it. *)
Lemma context_loop_run l :
  forall context s,
    exists s' evs,
      for_each read_context_file l context s
      = (Ret (context +++ join_all (readable_blocks (fs s) l)), s') /\
      fs s' = fs s /\ self s' = self s /\
      trace s' = trace s ++ evs /\
      forallb query_event evs = true /\
      reads_of evs = l /\ posts_of evs = [].
Proof.
  induction l as [|file_path l IH]; intros context s.
  - exists s, []. simpl. rewrite append_nil_r, app_nil_r. repeat split.
  - rewrite for_each_cons. unfold bind. rewrite read_context_file_run.
    simpl readable_blocks.
    destruct (open_read (fs s) file_path) as [e|file_content].
    + destruct (IH context
                  (log (EvPrint ("Error reading context file " +++ file_path
                                 +++ ": " +++ str_of_exn e))
                     (log (EvOpenRead file_path (inl e)) s)))
        as (s' & evs & Hrun & Hfs & Hself & Htrace & Hok & Hreads & Hposts).
      cbn [log fs self trace] in *.
      exists s', (EvOpenRead file_path (inl e)
                  :: EvPrint ("Error reading context file " +++ file_path
                              +++ ": " +++ str_of_exn e) :: evs).
      rewrite Hrun, Htrace. cbn -[String.append]. rewrite <- !app_assoc.
      cbn -[String.append].
      repeat split; auto; solve [exact Hposts | f_equal; exact Hreads].
    + destruct (IH (context +++ context_block file_path file_content)
                  (log (EvOpenRead file_path (inr file_content)) s))
        as (s' & evs & Hrun & Hfs & Hself & Htrace & Hok & Hreads & Hposts).
      cbn [log fs self trace] in *.
      exists s', (EvOpenRead file_path (inr file_content) :: evs).
      rewrite Hrun, Htrace. cbn -[String.append context_block].
      rewrite <- !app_assoc, append_assoc. cbn -[String.append context_block].
      repeat split; auto; solve [exact Hposts | f_equal; exact Hreads].
Qed.

Lemma context_choice context_files s :
  match context_files with
  | Some (f :: rest) => for_each read_context_file (f :: rest) ""
  | _ => ret ""
  end s
  = for_each read_context_file (files_of context_files) "" s.
Proof. now destruct context_files as [[|f rest]|]. Qed.

(** A query once its context is read. *)
Lemma query_equation query context_files s context s1 :
  for_each read_context_file (files_of context_files) "" s
  = (Ret context, s1) ->
  send_copilot_query query context_files s
  = let hdrs := dict_merge (dict_merge [] (headers (self s1)))
                  [ ("Content-Type", "application/json");
                    ("GitHub-Authentication",
                     "Bearer " +++ pat_token (self s1)) ] in
    let body := JObj [ ("prompt", JStr (context +++ newline +++ query));
                       ("max_tokens", JNum 500);
                       ("temperature", temperature) ] in
    let answer := requests_post (trace s1) copilot_url hdrs body in
    let posted := log (EvPost copilot_url hdrs body answer) s1 in
    let caught e :=
      log (EvPrint ("Exception when calling Copilot API: " +++ str_of_exn e))
        posted in
    (Ret (query_result_of answer),
     match answer with
     | inl e => caught e
     | inr r =>
         if status_code r =? 200 then
           match json r with
           | inl e => caught e
           | inr _ => posted
           end
         else
           log (EvPrint (text r))
             (log (EvPrint ("Error from Copilot API: "
                            +++ str_of_int (status_code r))) posted)
     end).
Proof.
  intros Hrun. unfold send_copilot_query. unfold bind at 1.
  rewrite context_choice, Hrun.
  unfold bind at 1. unfold get_self. cbv zeta.
  unfold try_except, bind, http_post, query_result_of.
  destruct (requests_post (trace s1) copilot_url _ _) as [e|r];
    [reflexivity|].
  destruct (status_code r =? 200); [|reflexivity].
  now destruct (json r).
Qed.

(** A query from beginning to end. *)
Lemma query_run query context_files s :
  exists evs tail,
    let prompt := join_all (readable_blocks (fs s) (files_of context_files))
                  +++ newline +++ query in
    let body := JObj [ ("prompt", JStr prompt); ("max_tokens", JNum 500);
                       ("temperature", temperature) ] in
    let hdrs := dict_merge (dict_merge [] (headers (self s)))
                  [ ("Content-Type", "application/json");
                    ("GitHub-Authentication",
                     "Bearer " +++ pat_token (self s)) ] in
    let answer := requests_post (trace s ++ evs) copilot_url hdrs body in
    let run := send_copilot_query query context_files s in
    fst run = Ret (query_result_of answer) /\
    fs (snd run) = fs s /\
    trace (snd run)
    = trace s ++ evs ++ EvPost copilot_url hdrs body answer :: tail /\
    forallb query_event evs = true /\
    reads_of evs = files_of context_files /\
    posts_of evs = [] /\
    forallb (fun ev => match ev with EvPrint _ => true | _ => false end) tail
    = true.
Proof.
  destruct (context_loop_run (files_of context_files) "" s)
    as (s1 & evs & Hrun & Hfs & Hself & Htrace & Hok & Hreads & Hposts).
  cbn [String.append] in Hrun.
  rewrite (query_equation _ _ _ _ _ Hrun). cbv zeta. cbn [fst snd].
  rewrite Hself, Htrace.
  match goal with
  | |- context [requests_post ?h ?u ?hd ?b] =>
      destruct (requests_post h u hd b) as [e|r] eqn:Hanswer
  end.
  - exists evs, [EvPrint ("Exception when calling Copilot API: "
                          +++ str_of_exn e)].
    cbv zeta. rewrite Hanswer. cbn [log fs trace].
    rewrite Hfs, Htrace, <- !app_assoc. now repeat split.
  - destruct (status_code r =? 200).
    + destruct (json r) as [e|j].
      * exists evs, [EvPrint ("Exception when calling Copilot API: "
                              +++ str_of_exn e)].
        cbv zeta. rewrite Hanswer. cbn [log fs trace].
        rewrite Hfs, Htrace, <- !app_assoc. now repeat split.
      * exists evs, []. cbv zeta. rewrite Hanswer. cbn [log fs trace].
        rewrite Hfs, Htrace, <- !app_assoc. now repeat split.
    + exists evs, [EvPrint ("Error from Copilot API: "
                            +++ str_of_int (status_code r));
                   EvPrint (text r)].
      cbv zeta. rewrite Hanswer. cbn [log fs trace].
      rewrite Hfs, Htrace, <- !app_assoc. now repeat split.
Qed.

Lemma prints_post_nothing (tail : list (Event Path)) :
  forallb (fun ev => match ev with EvPrint _ => true | _ => false end) tail
  = true ->
  posts_of tail = [] /\ reads_of tail = [] /\ forallb query_event tail = true.
Proof.
  induction tail as [|ev tail IH]; simpl; [now repeat split|].
  destruct ev; try discriminate. intros H. now apply IH.
Qed.

Lemma posts_of_app (a b : list (Event Path)) :
  posts_of (a ++ b) = posts_of a ++ posts_of b.
Proof. apply flat_map_app. Qed.

Lemma reads_of_app (a b : list (Event Path)) :
  reads_of (a ++ b) = reads_of a ++ reads_of b.
Proof. apply flat_map_app. Qed.

Lemma In_posts_of url hdrs body answer (evs : list (Event Path)) :
  In (EvPost url hdrs body answer) evs ->
  In (url, hdrs, body, answer) (posts_of evs).
Proof.
  intros Hin. unfold posts_of. apply in_flat_map.
  exists (EvPost url hdrs body answer). split; [assumption|now left].
Qed.

(** X1. [send_copilot_query] never raises.  It makes one POST, to the
    completion endpoint, and what it returns is decided by the answer: the
    JSON body of a 200; [{'error': text}] for another status;
    [{'error': str(e)}] when the request raised [e] and also when the body
    of a 200 is not JSON. *)
Theorem query_always_returns :
  forall query context_files s,
    exists evs hdrs body answer,
      trace (snd (send_copilot_query query context_files s)) = trace s ++ evs /\
      posts_of evs = [(copilot_url, hdrs, body, answer)] /\
      fst (send_copilot_query query context_files s)
      = Ret (query_result_of answer).
Proof.
  intros query context_files s.
  destruct (query_run query context_files s)
    as (evs & tail & Hres & _ & Htrace & _ & _ & Hposts & Htail).
  cbv zeta in *.
  apply prints_post_nothing in Htail as (Htail & _ & _).
  eexists _, _, _, _. split; [exact Htrace|]. split; [|exact Hres].
  rewrite posts_of_app, Hposts. simpl. now rewrite Htail.
Qed.

(** X2. A query leaves the local files as they are: it opens the context
    files, each once and in the order given, prints, and posts; it never
    writes, creates a directory or sends a GET. *)
Theorem query_only_reads :
  forall query context_files s,
    fs (snd (send_copilot_query query context_files s)) = fs s /\
    exists evs,
      trace (snd (send_copilot_query query context_files s)) = trace s ++ evs /\
      forallb query_event evs = true /\
      reads_of evs = files_of context_files.
Proof.
  intros query context_files s.
  destruct (query_run query context_files s)
    as (evs & tail & _ & Hfs & Htrace & Hok & Hreads & _ & Htail).
  cbv zeta in *.
  apply prints_post_nothing in Htail as (_ & Hrt & Hqt).
  split; [exact Hfs|]. eexists. split; [exact Htrace|]. split.
  - rewrite forallb_app, Hok. simpl. exact Hqt.
  - rewrite reads_of_app, Hreads. simpl. rewrite Hrt. apply app_nil_r.
Qed.

(** What the POST of a query is. *)
Lemma query_post query context_files s evs url hdrs body answer :
  trace (snd (send_copilot_query query context_files s)) = trace s ++ evs ->
  In (EvPost url hdrs body answer) evs ->
  url = copilot_url /\
  hdrs = dict_merge (dict_merge [] (headers (self s)))
           [ ("Content-Type", "application/json");
             ("GitHub-Authentication", "Bearer " +++ pat_token (self s)) ] /\
  body = JObj [ ("prompt",
                 JStr (join_all (readable_blocks (fs s)
                                   (files_of context_files))
                       +++ newline +++ query));
                ("max_tokens", JNum 500);
                ("temperature", temperature) ].
Proof.
  intros Htrace Hin.
  destruct (query_run query context_files s)
    as (evs0 & tail & _ & _ & Htrace0 & _ & _ & Hposts & Htail).
  cbv zeta in *.
  rewrite Htrace0 in Htrace. apply app_inv_head in Htrace. subst evs.
  apply prints_post_nothing in Htail as (Htail & _ & _).
  apply In_posts_of in Hin. rewrite posts_of_app, Hposts in Hin.
  simpl in Hin. rewrite Htail in Hin.
  destruct Hin as [Heq|[]]. now injection Heq as <- <- <- _.
Qed.

(** X3. The prompt of a query is the blocks of the context files that could
    be read, in the order given, followed by a newline and the query; a
    file that cannot be read is left out and stops nothing.  [None] and the
    empty list give the query after a newline. *)
Theorem query_prompt_skips_unreadable :
  forall query context_files s evs url hdrs body answer,
    trace (snd (send_copilot_query query context_files s)) = trace s ++ evs ->
    In (EvPost url hdrs body answer) evs ->
    body = JObj [ ("prompt",
                   JStr (join_all (readable_blocks (fs s)
                                     (files_of context_files))
                         +++ newline +++ query));
                  ("max_tokens", JNum 500);
                  ("temperature", temperature) ] /\
    (files_of context_files = [] ->
     body = JObj [ ("prompt", JStr (newline +++ query));
                   ("max_tokens", JNum 500);
                   ("temperature", temperature) ]).
Proof.
  intros query context_files s evs url hdrs body answer Htrace Hin.
  destruct (query_post _ _ _ _ _ _ _ _ Htrace Hin) as (_ & _ & Hbody).
  split; [exact Hbody|]. intros Hnone. now rewrite Hnone in Hbody.
Qed.

(** X4. The headers of the POST are the client's headers with two more:
    [Content-Type] is [application/json], [GitHub-Authentication] is the
    token as a bearer, and every other key is sent as the client has it. *)
Theorem query_headers_extend_client :
  forall query context_files s evs url hdrs body answer,
    NoDup (map fst (headers (self s))) ->
    trace (snd (send_copilot_query query context_files s)) = trace s ++ evs ->
    In (EvPost url hdrs body answer) evs ->
    dict_get "Content-Type" hdrs = Some "application/json" /\
    dict_get "GitHub-Authentication" hdrs
    = Some ("Bearer " +++ pat_token (self s)) /\
    forall key,
      key <> "Content-Type" -> key <> "GitHub-Authentication" ->
      dict_get key hdrs = dict_get key (headers (self s)).
Proof.
  intros query context_files s evs url hdrs body answer Hnodup Htrace Hin.
  destruct (query_post _ _ _ _ _ _ _ _ Htrace Hin) as (_ & -> & _).
  assert (Hextra : NoDup (map fst
            [ ("Content-Type", "application/json");
              ("GitHub-Authentication", "Bearer " +++ pat_token (self s)) ])).
  { simpl. constructor; [intros [H|[]]; discriminate H|].
    constructor; [intros []|constructor]. }
  repeat split.
  - now rewrite (dict_get_merge _ _ Hextra).
  - now rewrite (dict_get_merge _ _ Hextra).
  - intros key Hct Hga. rewrite (dict_get_merge _ _ Hextra).
    cbn [dict_get]. apply String.eqb_neq in Hct, Hga.
    rewrite String.eqb_sym in Hct. rewrite String.eqb_sym in Hga.
    rewrite Hct, Hga. rewrite (dict_get_merge _ _ Hnodup).
    now destruct (dict_get key (headers (self s))).
Qed.

End Query.

Lemma query_prompt_skips_unreadable_witness :
  QueryDemo.sent_body
  = JObj [ ("prompt",
            JStr (join_all
                    (@readable_blocks QueryDemo.pf (fs QueryDemo.desk)
                       ["notes.txt"; "missing.txt"])
                  +++ newline +++ "Write a parser"));
           ("max_tokens", JNum 500);
           ("temperature", temperature) ] /\
  (["notes.txt"; "missing.txt"] = [] ->
   QueryDemo.sent_body
   = JObj [ ("prompt", JStr (newline +++ "Write a parser"));
            ("max_tokens", JNum 500);
            ("temperature", temperature) ]).
Proof.
  apply (@query_prompt_skips_unreadable QueryDemo.pf "Write a parser"
           (Some ["notes.txt"; "missing.txt"]) QueryDemo.desk
           (trace (snd QueryDemo.ask)) copilot_url QueryDemo.sent_headers
           QueryDemo.sent_body (Demo.ok_json QueryDemo.completion)).
  - reflexivity.
  - vm_compute. do 3 right. left. reflexivity.
Defined.

Lemma query_headers_extend_client_witness :
  dict_get "Content-Type" QueryDemo.sent_headers = Some "application/json" /\
  dict_get "GitHub-Authentication" QueryDemo.sent_headers
  = Some "Bearer secret" /\
  forall key,
    key <> "Content-Type" -> key <> "GitHub-Authentication" ->
    dict_get key QueryDemo.sent_headers = dict_get key (headers Demo.client).
Proof.
  apply (@query_headers_extend_client QueryDemo.pf "Write a parser"
           (Some ["notes.txt"; "missing.txt"]) QueryDemo.desk
           (trace (snd QueryDemo.ask)) copilot_url QueryDemo.sent_headers
           QueryDemo.sent_body (Demo.ok_json QueryDemo.completion)).
  - simpl. repeat constructor; simpl; intuition discriminate.
  - reflexivity.
  - vm_compute. do 3 right. left. reflexivity.
Defined.

(* ================================================================== *)
(** ** Library failures during a fetch *)

Section FailFast.
Context {PF : Platform}.

Ltac no_event :=
  intros s; exists []; split; [now rewrite app_nil_r | intros ? ? []].

Lemma fails_fast_ret {A} (a : A) : fails_fast (ret a).
Proof. no_event. Qed.

Lemma fails_fast_raise {A} (e : Exn) : fails_fast (@raise _ A e).
Proof. no_event. Qed.

Lemma fails_fast_out_of_fuel {A} : fails_fast (@out_of_fuel _ A).
Proof. no_event. Qed.

Lemma fails_fast_lift {A} (x : Exn + A) : fails_fast (lift x).
Proof. destruct x; no_event. Qed.

Lemma fails_fast_get_self : fails_fast get_self.
Proof. no_event. Qed.

Lemma fails_fast_print line : fails_fast (print line).
Proof.
  intros s. eexists [_]. split; [reflexivity|].
  intros ev e [<-|[]] H. discriminate H.
Qed.

Lemma fails_fast_http_get url hdrs : fails_fast (http_get url hdrs).
Proof.
  intros s. unfold http_get.
  destruct (requests_get (trace s) url hdrs) eqn:E; eexists [_]; simpl;
    (split; [reflexivity | intros ev e' [<-|[]] H; simpl in H]).
  - now injection H as <-.
  - discriminate H.
Qed.

Lemma fails_fast_mkdir p parents exist_ok : fails_fast (mkdir p parents exist_ok).
Proof.
  intros s. unfold mkdir.
  destruct (path_mkdir (fs s) p parents exist_ok) eqn:E; eexists [_]; simpl;
    (split; [reflexivity | intros ev e' [<-|[]] H; simpl in H]).
  - now injection H as <-.
  - discriminate H.
Qed.

Lemma fails_fast_write_bytes p data : fails_fast (write_bytes p data).
Proof.
  intros s. unfold write_bytes.
  destruct (path_write_bytes (fs s) p data) eqn:E; eexists [_]; simpl;
    (split; [reflexivity | intros ev e' [<-|[]] H; simpl in H]).
  - now injection H as <-.
  - discriminate H.
Qed.

Lemma fails_fast_bind {A B} (m : M A) (k : A -> M B) :
  fails_fast m -> (forall a, fails_fast (k a)) -> fails_fast (bind m k).
Proof.
  intros Hm Hk s. destruct (Hm s) as [evs1 [Ht1 Hw1]]. unfold bind.
  destruct (m s) as [[a|e|] s1]; simpl in *.
  - destruct (Hk a s1) as [evs2 [Ht2 Hw2]]. exists (evs1 ++ evs2). split.
    + now rewrite Ht2, Ht1, app_assoc.
    + intros ev x Hin Hfail. apply in_app_or in Hin as [Hin|Hin].
      * now specialize (Hw1 _ _ Hin Hfail).
      * eauto.
  - exists evs1. split; [assumption|]. intros ev x Hin Hfail.
    specialize (Hw1 _ _ Hin Hfail). now inversion Hw1.
  - exists evs1. split; [assumption|]. intros ev x Hin Hfail.
    now specialize (Hw1 _ _ Hin Hfail).
Qed.

Lemma fails_fast_for_each {A Acc} (body : A -> Acc -> M Acc) l :
  (forall x acc, fails_fast (body x acc)) ->
  forall acc, fails_fast (for_each body l acc).
Proof.
  intros Hbody. induction l as [|x l IH]; intros acc; simpl.
  - apply fails_fast_ret.
  - apply fails_fast_bind; auto.
Qed.

#[local] Hint Resolve fails_fast_ret fails_fast_raise fails_fast_out_of_fuel
  fails_fast_lift fails_fast_get_self fails_fast_print fails_fast_http_get
  fails_fast_mkdir fails_fast_write_bytes : effects.

Ltac fast :=
  repeat first
    [ solve [auto with effects]
    | apply fails_fast_bind; [|intros]
    | match goal with
      | |- fails_fast (if ?c then _ else _) => destruct c
      | |- fails_fast (match ?x with _ => _ end) => destruct x
      end ].

Lemma fails_fast_get_file_content file_info :
  fails_fast (_get_file_content file_info).
Proof. unfold _get_file_content, py_get. fast. Qed.

Lemma fails_fast_process_item recurse owner repo path target_path item result :
  (forall o r p t, fails_fast (recurse o r p t)) ->
  fails_fast (process_item recurse owner repo path target_path item result).
Proof.
  intros Hrec. pose proof fails_fast_get_file_content.
  unfold process_item. fast.
Qed.

Lemma fails_fast_download fuel :
  forall owner repo path target_path,
    fails_fast (_download_directory_contents fuel owner repo path target_path).
Proof.
  induction fuel as [|fuel IH]; intros owner repo path target_path.
  - apply fails_fast_out_of_fuel.
  - rewrite download_S. fast. apply fails_fast_for_each. intros.
    now apply fails_fast_process_item.
Qed.

(** X5. Nothing that goes wrong in a library is swallowed by a fetch: when
    a request raises, or a [mkdir] or a write fails, anywhere in the tree,
    that exception is what [fetch_repository] ends with. *)
Theorem library_failure_ends_fetch :
  forall fuel repo_owner repo_name target s evs ev e,
    trace (snd (fetch_repository fuel repo_owner repo_name target s))
    = trace s ++ evs ->
    In ev evs ->
    event_failure ev = Some e ->
    fst (fetch_repository fuel repo_owner repo_name target s) = Raise e.
Proof.
  intros fuel repo_owner repo_name target s evs ev e Htrace Hin Hfail.
  assert (Hfetch : fails_fast
                     (fetch_repository fuel repo_owner repo_name target)).
  { pose proof (fails_fast_download fuel). unfold fetch_repository. fast. }
  destruct (Hfetch s) as [evs' [Htrace' Hraise]].
  rewrite Htrace' in Htrace. apply app_inv_head in Htrace. subst evs'.
  eauto.
Qed.

End FailFast.

(* ================================================================== *)
(** ** What a download sends and where it writes *)

Section DownloadEvents.
Context {PF : Platform}.

Lemma emits_bind {A B} me P (m : M A) (k : A -> M B) :
  emits me P m -> keeps_self m -> (forall a, emits me P (k a)) ->
  emits me P (bind m k).
Proof.
  intros Hm Hself Hk s Hs. specialize (Hself s).
  destruct (Hm s Hs) as [evs1 [Ht1 HP1]]. unfold bind.
  destruct (m s) as [[a|e|] s1]; simpl in *; try (now exists evs1).
  destruct (Hk a s1) as [evs2 [Ht2 HP2]]; [congruence|].
  exists (evs1 ++ evs2). split.
  - now rewrite Ht2, Ht1, app_assoc.
  - apply Forall_app. now split.
Qed.

Lemma emits_get_self_bind {B} me P (k : Client -> M B) :
  emits me P (k me) -> emits me P (bind get_self k).
Proof. intros Hk s Hs. unfold bind, get_self. rewrite Hs. now apply Hk. Qed.

Lemma emits_weaken {A} me (P Q : Event Path -> Prop) (m : M A) :
  (forall ev, P ev -> Q ev) -> emits me P m -> emits me Q m.
Proof.
  intros HPQ Hm s Hs. destruct (Hm s Hs) as [evs [Ht HP]].
  exists evs. split; [assumption|]. eapply Forall_impl; eauto.
Qed.

Ltac silent :=
  intros s _; exists []; split; [now rewrite app_nil_r | constructor].

Lemma emits_ret {A} me P (a : A) : emits me P (ret a).
Proof. silent. Qed.

Lemma emits_raise {A} me P (e : Exn) : emits me P (@raise _ A e).
Proof. silent. Qed.

Lemma emits_out_of_fuel {A} me P : emits me P (@out_of_fuel _ A).
Proof. silent. Qed.

Lemma emits_lift {A} me P (x : Exn + A) : emits me P (lift x).
Proof. destruct x; silent. Qed.

Lemma emits_print me (P : Event Path -> Prop) line :
  P (EvPrint line) -> emits me P (print line).
Proof. intros HP s _. eexists [_]. split; [reflexivity|]. now repeat constructor. Qed.

Lemma emits_http_get me (P : Event Path -> Prop) url hdrs :
  (forall answer, P (EvGet url hdrs answer)) -> emits me P (http_get url hdrs).
Proof.
  intros HP s _. unfold http_get.
  destruct (requests_get (trace s) url hdrs) eqn:E; eexists [_];
    (split; [reflexivity|]); repeat constructor; apply HP.
Qed.

Lemma emits_mkdir me (P : Event Path -> Prop) p parents exist_ok :
  (forall failure, P (EvMkdir p parents exist_ok failure)) ->
  emits me P (mkdir p parents exist_ok).
Proof.
  intros HP s _. unfold mkdir.
  destruct (path_mkdir (fs s) p parents exist_ok) eqn:E; eexists [_];
    (split; [reflexivity|]); repeat constructor; apply HP.
Qed.

Lemma emits_write_bytes me (P : Event Path -> Prop) p data :
  (forall failure, P (EvWriteBytes p data failure)) ->
  emits me P (write_bytes p data).
Proof.
  intros HP s _. unfold write_bytes.
  destruct (path_write_bytes (fs s) p data) eqn:E; eexists [_];
    (split; [reflexivity|]); repeat constructor; apply HP.
Qed.

Lemma emits_for_each {A Acc} me P (body : A -> Acc -> M Acc) l :
  (forall x acc, emits me P (body x acc)) ->
  (forall x acc, keeps_self (body x acc)) ->
  forall acc, emits me P (for_each body l acc).
Proof.
  intros Hbody Hself. induction l as [|x l IH]; intros acc; simpl.
  - apply emits_ret.
  - apply emits_bind; auto.
Qed.

Lemma emits_http_get_bind {B} me (P : Event Path -> Prop) url hdrs
      (k : Response -> M B) :
  (forall answer, P (EvGet url hdrs answer)) ->
  (forall history r,
      requests_get history url hdrs = inr r -> emits me P (k r)) ->
  emits me P (bind (http_get url hdrs) k).
Proof.
  intros HP Hk s Hs. unfold bind, http_get.
  destruct (requests_get (trace s) url hdrs) as [e|r] eqn:Hget.
  - eexists [_]. split; [reflexivity|]. repeat constructor. apply HP.
  - destruct (Hk (trace s) r Hget
                (log (EvGet url hdrs (inr r)) s) Hs) as [evs [Ht HPs]].
    exists (EvGet url hdrs (inr r) :: evs). split.
    + rewrite Ht. cbn [log trace]. now rewrite <- app_assoc.
    + constructor; [apply HP|exact HPs].
Qed.

Lemma emits_lift_bind {A B} me (P : Event Path -> Prop) (x : Exn + A)
      (k : A -> M B) :
  (forall a, x = inr a -> emits me P (k a)) ->
  emits me P (bind (lift x) k).
Proof.
  intros Hk s Hs. destruct x as [e|a].
  - rewrite lift_inl. exists []. split; [now rewrite app_nil_r|constructor].
  - rewrite lift_inr. now apply Hk.
Qed.

Lemma emits_for_each_in {A Acc} me P (body : A -> Acc -> M Acc) l :
  (forall x acc, In x l -> emits me P (body x acc)) ->
  (forall x acc, keeps_self (body x acc)) ->
  forall acc, emits me P (for_each body l acc).
Proof.
  intros Hbody Hself. induction l as [|x l IH]; intros acc; simpl.
  - apply emits_ret.
  - apply emits_bind.
    + apply Hbody. now left.
    + apply Hself.
    + intros a. apply IH. intros y acc' Hin. apply Hbody. now right.
Qed.

Lemma joined_further ok target n p :
  ok n -> joined_onto ok (truediv target n) p -> joined_onto ok target p.
Proof. intros. now apply joined_deeper with n. Qed.

Lemma download_event_deeper me ok target n ev :
  ok n ->
  download_event me ok (truediv target n) ev -> download_event me ok target ev.
Proof.
  intros Hok. destruct ev; simpl; auto.
  - intros (Hb & Hp & He). repeat split; auto. now apply joined_deeper with n.
  - intros Hb. now apply joined_deeper with n.
Qed.

#[local] Hint Resolve keeps_self_ret keeps_self_raise keeps_self_lift
  keeps_self_get_self keeps_self_print keeps_self_http_get keeps_self_mkdir
  keeps_self_write_bytes keeps_self_get_file_content keeps_self_download
  emits_ret emits_raise emits_out_of_fuel emits_lift : effects.

(** Fetching the content of a file: at most a GET with the client's
    headers and a line of output. *)
Lemma emits_get_file_content me ok target file_info :
  emits me (download_event me ok target) (_get_file_content file_info).
Proof.
  unfold _get_file_content.
  destruct file_info; try apply emits_raise.
  destruct (has_inline_content fields).
  - apply emits_bind; [auto with effects..|intros]. apply emits_lift.
  - apply emits_bind; [auto with effects..|intros url].
    apply emits_get_self_bind.
    apply emits_bind; [| |intros r].
    + destruct url; try apply emits_raise.
      apply emits_http_get. now intros.
    + destruct url; cbn [py_get]; auto with effects.
    + destruct (status_code r =? 200); [apply emits_ret|].
      apply emits_bind; [|auto with effects|intros; apply emits_ret].
      now apply emits_print.
Qed.

Lemma emits_process_item me ok recurse owner repo path target item result :
  (forall fields n,
      item = JObj fields -> dict_get "name" fields = Some (JStr n) -> ok n) ->
  (forall o r p n, emits me (download_event me ok (truediv target n))
                     (recurse o r p (truediv target n))) ->
  (forall o r p t, keeps_self (recurse o r p t)) ->
  emits me (download_event me ok target)
    (process_item recurse owner repo path target item result).
Proof.
  intros Hname Hrec Hself s Hs. unfold process_item.
  destruct (subscript item "name") as [e|name] eqn:En;
    [rewrite lift_inl; exists []; now rewrite app_nil_r
    | rewrite lift_inr].
  destruct (path_join target name) as [e|joined] eqn:Ej;
    [rewrite lift_inl; exists []; now rewrite app_nil_r
    | rewrite lift_inr].
  apply path_join_inr in Ej as (n & -> & ->). cbn [fst snd].
  apply subscript_inr in En as (fields & -> & Hn).
  assert (Hok : ok n) by (now apply (Hname fields)).
  destruct (subscript (JObj fields) "type") as [e|t];
    [rewrite lift_inl; exists []; now rewrite app_nil_r
    | rewrite lift_inr].
  destruct (eq_str t "file").
  - refine ((_ : emits me (download_event me ok target) _) s Hs).
    apply emits_bind;
      [apply emits_get_file_content|auto with effects|intros data].
    apply emits_bind; [|auto with effects|intros _].
    { apply emits_write_bytes. intros. now apply joined_child. }
    apply emits_bind; [auto with effects..|intros size].
    apply emits_bind; [|auto with effects|intros; apply emits_ret].
    now apply emits_print.
  - destruct (eq_str t "dir");
      [|exists []; split; [now rewrite app_nil_r|constructor]].
    refine ((_ : emits me (download_event me ok target) _) s Hs).
    apply emits_bind; [|auto with effects|intros _].
    { apply emits_mkdir. intros. repeat split. now apply joined_child. }
    apply emits_bind; [|apply Hself|intros; apply emits_ret].
    apply emits_weaken with (P := download_event me ok (truediv target n));
      [|apply Hrec].
    intros ev. now apply download_event_deeper.
Qed.

Lemma emits_download ok fuel :
  listed_names ok ->
  forall owner repo path target me,
    emits me (download_event me ok target)
      (_download_directory_contents fuel owner repo path target).
Proof.
  intros Hlisted.
  induction fuel as [|fuel IH]; intros owner repo path target me.
  - apply emits_out_of_fuel.
  - rewrite download_S. apply emits_get_self_bind.
    apply emits_http_get_bind; [now intros|intros history r Hget].
    destruct (status_code r =? 200) eqn:H200; cbn [negb].
    + apply Z.eqb_eq in H200.
      apply emits_lift_bind. intros contents Hjson.
      apply emits_lift_bind. intros items Hiter.
      apply emits_bind; [| |intros; apply emits_ret].
      * apply emits_for_each_in; intros item acc.
        -- intros Hin. apply emits_process_item;
             [|intros; apply IH|apply keeps_self_download].
           intros fields n -> Hn.
           exact (Hlisted _ _ _ _ _ _ _ _ Hget H200 Hjson Hiter Hin Hn).
        -- apply keeps_self_process_item. apply keeps_self_download.
      * apply keeps_self_for_each. intros.
        apply keeps_self_process_item. apply keeps_self_download.
    + apply emits_bind; [|auto with effects|intros _].
      { now apply emits_print. }
      apply emits_bind; [|auto with effects|intros _; apply emits_ret].
      now apply emits_print.
Qed.

(** X6. Every request of a fetch carries the client's headers, token
    included: the listing requests and also the GET of each
    ['download_url'], whatever host the listing names there.  A fetch
    sends no POST and opens no local file. *)
Theorem every_request_carries_credentials :
  forall fuel repo_owner repo_name target s evs ev,
    trace (snd (fetch_repository fuel repo_owner repo_name target s))
    = trace s ++ evs ->
    In ev evs ->
    match ev with
    | EvGet _ hdrs _ => hdrs = headers (self s)
    | EvPost _ _ _ _ | EvOpenRead _ _ => False
    | _ => True
    end.
Proof.
  intros fuel repo_owner repo_name target s evs ev Htrace Hin.
  set (P := fun ev : Event Path =>
              match ev with
              | EvGet _ hdrs _ => hdrs = headers (self s)
              | EvPost _ _ _ _ | EvOpenRead _ _ => False
              | _ => True
              end).
  assert (Hfetch : emits (self s) P
                     (fetch_repository fuel repo_owner repo_name target)).
  { unfold fetch_repository.
    apply emits_bind; [|auto with effects|intros _].
    { apply emits_mkdir. now intros. }
    apply emits_bind; [|auto with effects|intros _].
    { now apply emits_print. }
    eapply emits_weaken;
      [|apply (emits_download (fun _ => True)); now unfold listed_names].
    intros ev'. destruct ev'; simpl; auto. }
  destruct (Hfetch s eq_refl) as [evs' [Htrace' HP]].
  rewrite Htrace' in Htrace. apply app_inv_head in Htrace. subst evs'.
  rewrite Forall_forall in HP. exact (HP ev Hin).
Qed.

(** Paths joined from names onto which [/] keeps inside stay inside. *)
Lemma joined_stays_inside (inside : Path -> Path -> Prop)
      (plain : string -> Prop) :
  (forall a b c, inside a b -> inside b c -> inside a c) ->
  (forall t n, plain n -> inside t (truediv t n)) ->
  forall target p, joined_onto plain target p -> inside target p.
Proof.
  intros Htrans Hstep target p Hjoined.
  induction Hjoined as [target n Hn|target n p Hn _ IH].
  - now apply Hstep.
  - apply Htrans with (truediv target n); [now apply Hstep|exact IH].
Qed.


End DownloadEvents.

(* ================================================================== *)
(** ** Edge cases of a fetch *)

Section Edges.
Context {PF : Platform}.

(** X8. A fetch begins by creating its target, the repository name when no
    target is given, with [parents=True, exist_ok=True].  When that fails
    the exception ends the fetch and nothing is requested; otherwise the
    fetch prints its banner and then requests the listing of the root,
    whose remote path is empty. *)
Theorem fetch_creates_target_first :
  forall fuel repo_owner repo_name target s,
    let local := match target with
                 | None => Path_of repo_name
                 | Some t => Path_of t
                 end in
    let banner := EvPrint ("Fetching repository " +++ repo_owner +++ "/"
                           +++ repo_name +++ "...") in
    (forall e,
        path_mkdir (fs s) local true true = inl e ->
        fetch_repository fuel repo_owner repo_name target s
        = (Raise e, log (EvMkdir local true true (Some e)) s)) /\
    (forall fs',
        path_mkdir (fs s) local true true = inr fs' ->
        exists rest,
          trace (snd (fetch_repository (S fuel) repo_owner repo_name target s))
          = trace s
            ++ EvMkdir local true true None
               :: banner
               :: EvGet (contents_url (base_url (self s)) repo_owner
                           repo_name "")
                        (headers (self s))
                        (listing_answer
                           (trace s ++ [EvMkdir local true true None; banner])
                           (self s) repo_owner repo_name "")
               :: rest).
Proof.
  intros fuel repo_owner repo_name target s local banner. split.
  - intros e Hmk. unfold fetch_repository. cbv zeta. fold local.
    unfold bind at 1. unfold mkdir. now rewrite Hmk.
  - intros fs' Hmk. unfold fetch_repository. cbv zeta. fold local.
    unfold bind at 1. unfold mkdir. rewrite Hmk.
    unfold bind at 1. unfold print. cbn [log self fs trace].
    match goal with
    | |- context [_download_directory_contents (S fuel) ?o ?r ?p ?t ?st] =>
        destruct (download_trace_starts fuel o r p t st) as [rest Hrest]
    end.
    exists rest. rewrite Hrest. cbn [log self trace fs].
    rewrite <- !app_assoc. reflexivity.
Qed.

(** X9. A listing answered 200 whose body is not a JSON array.  A body
    that is no JSON at all raises the decoding error.  [null], a number or
    a boolean cannot be iterated, and a JSON object (what the contents API
    sends for the path of a file) or a string is iterated key by key or
    character by character and fails at the first subscript: [TypeError],
    unless it is empty, which gives an empty result.  In every case
    nothing is created locally. *)
Theorem listing_that_is_no_array :
  forall fuel owner repo path target s r,
    listing_answer (trace s) (self s) owner repo path = inr r ->
    status_code r = 200 ->
    let requested :=
      log (EvGet (contents_url (base_url (self s)) owner repo path)
                 (headers (self s)) (inr r)) s in
    (forall e,
        json r = inl e ->
        _download_directory_contents (S fuel) owner repo path target s
        = (Raise e, requested)) /\
    (forall contents,
        json r = inr contents ->
        (forall items, contents <> JArr items) ->
        _download_directory_contents (S fuel) owner repo path target s
        = (match contents with
           | JObj [] | JStr "" => Ret (ListingResult [] [])
           | _ => Raise TypeError
           end, requested)).
Proof.
  intros fuel owner repo path target s r Hget H200 requested.
  unfold listing_answer in Hget. apply Z.eqb_eq in H200.
  split.
  - intros e Hjson. rewrite download_S.
    unfold bind, get_self, http_get. rewrite Hget, H200. cbn [negb].
    now rewrite Hjson.
  - intros contents Hjson Hnot. rewrite download_S.
    unfold bind at 1. unfold get_self. unfold bind at 1. unfold http_get.
    rewrite Hget, H200. cbn [negb]. rewrite Hjson, lift_inr.
    destruct contents as [| | | |str|items|fields];
      try reflexivity.
    + destruct str; reflexivity.
    + now contradiction (Hnot items).
    + destruct fields as [|[k v] fields]; reflexivity.
Qed.

(** X10. An entry of type file without ['size']: the content is fetched
    and written first, and only then the record is built, so the fetch
    ends with [KeyError] while the file is on disk. *)
Theorem file_without_size_is_written :
  forall recurse owner repo path target fields n result s data s1 fs',
    dict_get "name" fields = Some (JStr n) ->
    dict_get "type" fields = Some (JStr "file") ->
    dict_get "size" fields = None ->
    _get_file_content (JObj fields) s = (Ret data, s1) ->
    path_write_bytes (fs s1) (truediv target n) data = inr fs' ->
    process_item recurse owner repo path target (JObj fields) result s
    = (Raise (KeyError "size"),
       {| self := self s1; fs := fs';
          trace := trace s1 ++ [EvWriteBytes (truediv target n) data None] |}).
Proof.
  intros recurse owner repo path target fields n result s data s1 fs'
         Hn Ht Hsize Hget Hw.
  rewrite (file_entry_run _ _ _ _ _ _ _ _ _ _ _ Hn Ht Hget).
  now rewrite Hw, Hsize.
Qed.

Lemma passed_over_run recurse owner repo path target item :
  passed_over item = true ->
  forall result s,
    process_item recurse owner repo path target item result s = (Ret result, s).
Proof.
  unfold passed_over, process_item. intros Hskip result s.
  destruct (subscript item "name") as [e|name]; [discriminate|].
  rewrite lift_inr.
  destruct name as [| | | |n| |]; try discriminate.
  cbn [path_join]. rewrite lift_inr.
  destruct (subscript item "type") as [e|t]; [discriminate|].
  rewrite lift_inr.
  apply andb_prop in Hskip as [Hf Hd].
  apply negb_true_iff in Hf, Hd. now rewrite Hf, Hd.
Qed.

(** X11. Entries that are neither files nor directories (symlinks,
    submodules) are passed over in silence: a listing made of such entries
    alone gives the empty result, and apart from the listing request
    nothing is requested, printed, created or written. *)
Theorem other_entries_are_skipped :
  forall fuel owner repo path target s r items,
    listing_answer (trace s) (self s) owner repo path = inr r ->
    status_code r = 200 ->
    json r = inr (JArr items) ->
    forallb passed_over items = true ->
    _download_directory_contents (S fuel) owner repo path target s
    = (Ret (ListingResult [] []),
       log (EvGet (contents_url (base_url (self s)) owner repo path)
                  (headers (self s)) (inr r)) s).
Proof.
  intros fuel owner repo path target s r items Hget H200 Hjson Hskip.
  rewrite (listing_run fuel owner repo path target s r (JArr items) items
             Hget H200 Hjson eq_refl).
  assert (Hloop : forall acc st,
             for_each (process_item (_download_directory_contents fuel)
                         owner repo path target) items acc st
             = (Ret acc, st)).
  { clear Hjson. induction items as [|item items IH]; intros acc st.
    - reflexivity.
    - simpl in Hskip. apply andb_prop in Hskip as [Hitem Hrest].
      rewrite for_each_cons. unfold bind.
      rewrite (passed_over_run _ _ _ _ _ _ Hitem). now apply IH. }
  now rewrite Hloop.
Qed.

(** X12. When a file entry has inline content that is not empty, its
    ['download_url'] is never requested: the state is left as it was, a
    string is decoded (the decoder's exception goes up as it is) and
    anything else than a string raises [TypeError].  Without such content
    and without a ['download_url'], [KeyError] is raised, again with no
    request. *)
Theorem inline_content_makes_no_request :
  forall fields s,
    (has_inline_content fields = true ->
     _get_file_content (JObj fields) s
     = (match dict_get "content" fields with
        | Some (JStr encoded) =>
            match b64decode encoded with
            | inl e => Raise e
            | inr data => Ret data
            end
        | _ => Raise TypeError
        end, s)) /\
    (has_inline_content fields = false ->
     dict_get "download_url" fields = None ->
     _get_file_content (JObj fields) s = (Raise (KeyError "download_url"), s)).
Proof.
  intros fields s. split.
  - intros Hc. unfold _get_file_content. rewrite Hc.
    unfold has_inline_content in Hc. unfold subscript.
    destruct (dict_get "content" fields) as [c|]; [|discriminate].
    rewrite lift_inr. destruct c; try reflexivity.
    simpl. now destruct (b64decode s0).
  - intros Hc Hu. unfold _get_file_content. rewrite Hc.
    unfold subscript. now rewrite Hu, lift_inl.
Qed.

(** X13. An error result at the top of a download means that its own
    listing request was answered with a status other than 200: the error
    is the body of that answer, and nothing was created locally.  A
    listing answered 200 never gives it. *)
Theorem error_result_means_failed_listing :
  forall fuel owner repo path target s body s',
    _download_directory_contents fuel owner repo path target s
    = (Ret (ErrorResult body), s') ->
    exists r,
      listing_answer (trace s) (self s) owner repo path = inr r /\
      status_code r <> 200 /\
      body = text r /\
      fs s' = fs s.
Proof.
  intros fuel owner repo path target s body s' Hrun.
  destruct fuel as [|fuel]; [discriminate|].
  destruct (listing_answer (trace s) (self s) owner repo path)
    as [e|r] eqn:Hget.
  - exfalso. unfold listing_answer in Hget. rewrite download_S in Hrun.
    unfold bind, get_self, http_get in Hrun. rewrite Hget in Hrun.
    discriminate.
  - exists r. split; [reflexivity|].
    destruct (Z.eq_dec (status_code r) 200) as [H200|Hfailed].
    + exfalso. unfold listing_answer in Hget. rewrite download_S in Hrun.
      unfold bind at 1 in Hrun. unfold get_self in Hrun.
      unfold bind at 1 in Hrun. unfold http_get in Hrun.
      apply Z.eqb_eq in H200. rewrite Hget, H200 in Hrun. cbn [negb] in Hrun.
      unfold bind in Hrun.
      destruct (lift (json r) _) as [[contents|e|] s1]; try discriminate.
      destruct (lift (iterate contents) s1) as [[items|e|] s2];
        try discriminate.
      destruct (for_each _ items empty_listing s2) as [[result|e|] s3];
        discriminate.
    + rewrite (failed_listing_run _ _ _ _ _ _ _ Hget Hfailed) in Hrun.
      injection Hrun as <- <-. now repeat split.
Qed.

(** X16. A malformed entry is not tolerated.  An entry that is no
    dictionary or whose name is no string raises [TypeError], one without
    ['name'] or ['type'] raises [KeyError], before anything is requested or
    written for it; the loop ends there: what the entries before it put on
    disk stays, the entries after it are never processed, and no result is
    returned. *)
Theorem malformed_entry_ends_listing :
  forall recurse owner repo path target pre item post acc acc1 s s1 e,
    for_each (process_item recurse owner repo path target) pre acc s
    = (Ret acc1, s1) ->
    entry_error item = Some e ->
    for_each (process_item recurse owner repo path target)
      (pre ++ item :: post) acc s
    = (Raise e, s1).
Proof.
  intros recurse owner repo path target pre item post acc acc1 s s1 e
         Hpre Herr.
  rewrite for_each_app, (bind_Ret _ _ _ _ _ Hpre), for_each_cons.
  apply bind_Raise. unfold process_item, entry_error in *.
  destruct item as [| | | | | |fields];
    try (injection Herr as <-; reflexivity).
  unfold subscript.
  destruct (dict_get "name" fields) as [name|];
    [|injection Herr as <-; reflexivity].
  rewrite lift_inr.
  destruct name as [| | | |n| |]; try (injection Herr as <-; reflexivity).
  cbn [path_join]. rewrite lift_inr.
  destruct (dict_get "type" fields); [discriminate|].
  injection Herr as <-. reflexivity.
Qed.

End Edges.

(* ================================================================== *)
(** ** The records of a listing, and a tree without end *)

Section Records.
Context {PF : Platform}.

Lemma process_item_records recurse owner repo path target item acc s acc' s' :
  process_item recurse owner repo path target item acc s = (Ret acc', s') ->
  files acc' = files acc ++ file_records_of target [item] /\
  map head_of (directories acc')
  = map head_of (directories acc) ++ dir_heads_of target [item].
Proof.
  unfold process_item, file_records_of, dir_heads_of. cbn [flat_map].
  destruct (subscript item "name") as [e|name]; [discriminate|].
  unfold bind at 1. cbn [lift ret].
  destruct name as [| | | |n| |]; try discriminate.
  unfold bind at 1. cbn [path_join lift ret fst snd].
  destruct (subscript item "type") as [e|t]; [discriminate|].
  unfold bind at 1. cbn [lift ret].
  destruct (eq_str t "file") eqn:Ef.
  - rewrite (file_is_not_dir t Ef).
    unfold bind at 1.
    destruct (_get_file_content item s) as [[data|e|] s1]; try discriminate.
    unfold bind at 1.
    destruct (write_bytes (truediv target n) data s1) as [[[]|e|] s2];
      try discriminate.
    destruct (subscript item "size") as [e|size]; [discriminate|].
    unfold bind, lift, print, ret. intros H. injection H as <- <-.
    cbn. now rewrite !app_nil_r.
  - destruct (eq_str t "dir") eqn:Ed.
    + unfold bind at 1.
      destruct (mkdir (truediv target n) false true s) as [[[]|e|] s1];
        try discriminate.
      unfold bind, ret.
      destruct (recurse owner repo (child_path path n) (truediv target n) s1)
        as [[sub|e|] s2]; try discriminate.
      intros H. injection H as <- <-.
      cbn. rewrite !app_nil_r, map_app.
      split; [|reflexivity].
      destruct (subscript item "size"); now rewrite app_nil_r.
    + unfold ret. intros H. injection H as <- <-.
      cbn. rewrite !app_nil_r. split; [|reflexivity].
      destruct (subscript item "size"); now rewrite app_nil_r.
Qed.

Lemma file_records_of_cons target item items :
  file_records_of target (item :: items)
  = file_records_of target [item] ++ file_records_of target items.
Proof. unfold file_records_of. cbn [flat_map]. now rewrite app_nil_r. Qed.

Lemma dir_heads_of_cons target item items :
  dir_heads_of target (item :: items)
  = dir_heads_of target [item] ++ dir_heads_of target items.
Proof. unfold dir_heads_of. cbn [flat_map]. now rewrite app_nil_r. Qed.

Lemma for_each_records recurse owner repo path target items :
  forall acc s acc' s',
    for_each (process_item recurse owner repo path target) items acc s
    = (Ret acc', s') ->
    files acc' = files acc ++ file_records_of target items /\
    map head_of (directories acc')
    = map head_of (directories acc) ++ dir_heads_of target items.
Proof.
  induction items as [|item items IH]; intros acc s acc' s' Hrun.
  - injection Hrun as <- <-. cbn. now rewrite !app_nil_r.
  - rewrite for_each_cons in Hrun. unfold bind in Hrun.
    destruct (process_item recurse owner repo path target item acc s)
      as [[acc1|e|] s1] eqn:Hitem; try discriminate.
    apply process_item_records in Hitem as [Hf1 Hd1].
    apply IH in Hrun as [Hf2 Hd2].
    rewrite Hf2, Hf1, Hd2, Hd1, <- !app_assoc.
    now rewrite (file_records_of_cons target item items),
                (dir_heads_of_cons target item items).
Qed.

(** X14. What a download returns for a listing answered 200 with a JSON
    array: ['files'] is, entry by entry and in order, the name of each file
    entry, the text of its local path [target / name] and the size the
    listing gave; ['directories'] has name and local path of each
    directory entry. *)
Theorem result_records_of_listing :
  forall fuel owner repo path target s r items res s',
    listing_answer (trace s) (self s) owner repo path = inr r ->
    status_code r = 200 ->
    json r = inr (JArr items) ->
    _download_directory_contents (S fuel) owner repo path target s
    = (Ret res, s') ->
    exists dir_records,
      res = ListingResult (file_records_of target items) dir_records /\
      map (fun d => (dr_name d, dr_path d)) dir_records
      = dir_heads_of target items.
Proof.
  intros fuel owner repo path target s r items res s' Hget H200 Hjson Hrun.
  rewrite (listing_run fuel owner repo path target s r (JArr items) items
             Hget H200 Hjson eq_refl) in Hrun.
  match type of Hrun with
  | context [for_each ?b ?l ?a ?st] =>
      destruct (for_each b l a st) as [[result|e|] s1] eqn:Hloop
  end; try discriminate.
  injection Hrun as <- <-.
  apply for_each_records in Hloop as [Hf Hd].
  exists (directories result). rewrite Hf. split; [reflexivity|exact Hd].
Qed.

(** X15. The method has no depth limit of its own.  On a server whose
    every listing names a directory first, with a file system that creates
    every directory, a download returns nothing and raises no exception of
    a library: whatever room the recursion limit leaves, it recurses until
    that is used up and ends with [RecursionError]. *)
Theorem endless_tree_never_ends :
  endless_tree ->
  forall fuel owner repo path target s,
    observed (fst (_download_directory_contents fuel owner repo path target s))
    = inr RecursionError.
Proof.
  intros [Hserver Hmkdir].
  assert (Hout : forall fuel owner repo path target s,
             fst (_download_directory_contents fuel owner repo path target s)
             = OutOfFuel);
    [|intros fuel owner repo path target s;
      now rewrite (Hout fuel owner repo path target s)].
  induction fuel as [|fuel IH]; intros owner repo path target s.
  - reflexivity.
  - destruct (Hserver (trace s)
                (contents_url (base_url (self s)) owner repo path)
                (headers (self s)))
      as (r & items & fields & n & Hget & H200 & Hjson & Hn & Ht).
    rewrite (listing_run fuel owner repo path target s r
               (JArr (JObj fields :: items)) (JObj fields :: items)
               Hget H200 Hjson eq_refl).
    rewrite for_each_cons. unfold bind at 1.
    rewrite (dir_entry_run _ _ _ _ _ _ _ _ _ Hn Ht).
    match goal with
    | |- context [path_mkdir ?f ?p false true] =>
        destruct (Hmkdir f p) as [fs' ->]
    end.
    match goal with
    | |- context [_download_directory_contents fuel ?o ?r ?p ?t ?st] =>
        pose proof (IH o r p t st) as Hsub;
        destruct (_download_directory_contents fuel o r p t st)
          as [[sub|e|] s2]
    end; try discriminate Hsub.
    reflexivity.
Qed.

End Records.

(* ================================================================== *)
(** ** The further properties on concrete repositories *)

Lemma library_failure_ends_fetch_witness :
  fst EdgeDemo.unreachable_fetch
  = Raise (RequestException "connection reset").
Proof.
  apply (@library_failure_ends_fetch EdgeDemo.unreachable 2%nat "octocat"
           "Hello-World" None (Demo.start EdgeDemo.unreachable [])
           (trace (snd EdgeDemo.unreachable_fetch))
           (EvGet (Demo.raw "README.md") (headers Demo.client)
                  (inl (RequestException "connection reset")))).
  - reflexivity.
  - vm_compute. repeat first [left; reflexivity | right].
  - reflexivity.
Defined.

Lemma every_request_carries_credentials_witness :
  [ ("Authorization", "token secret");
    ("Accept", "application/vnd.github.v3+json");
    ("User-Agent", "GitHub-Copilot-Client-octocat") ]
  = headers (self (Demo.start ProjectDemo.pf [])).
Proof.
  apply (@every_request_carries_credentials ProjectDemo.pf 2%nat "octocat"
           "Hello-World" None (Demo.start ProjectDemo.pf [])
           (trace (snd EdgeDemo.project_fetch))
           (EvGet (Demo.raw "README.md")
                  [ ("Authorization", "token secret");
                    ("Accept", "application/vnd.github.v3+json");
                    ("User-Agent", "GitHub-Copilot-Client-octocat") ]
                  (Demo.ok_raw Demo.hello))).
  - reflexivity.
  - vm_compute. repeat first [left; reflexivity | right].
Defined.

Lemma inside_transitive a b c :
  EdgeDemo.inside a b -> EdgeDemo.inside b c -> EdgeDemo.inside a c.
Proof.
  intros (l1 & Hne & Hl1 & ->) (l2 & _ & Hl2 & ->). exists (l1 ++ l2).
  repeat split.
  - destruct l1; [easy | discriminate].
  - now rewrite forallb_app, Hl1, Hl2.
  - unfold EdgeDemo.descend. now rewrite fold_left_app.
Qed.

Lemma plain_name_stays_inside (t n : @Path ProjectDemo.pf) :
  EdgeDemo.plain n -> EdgeDemo.inside t (truediv t n).
Proof.
  intros Hn. exists [n]. repeat split; [discriminate|].
  cbn [forallb]. now rewrite Hn.
Qed.

Lemma project_lists_plain_names : @listed_names ProjectDemo.pf EdgeDemo.plain.
Proof.
  intros history url hdrs r contents items fields n
         Hget H200 Hjson Hiter Hin Hn.
  cbn [requests_get ProjectDemo.pf Demo.platform] in Hget.
  unfold Demo.answer, ProjectDemo.project in Hget. cbn [dict_get] in Hget.
  repeat match type of Hget with
         | context [if ?c then _ else _] => destruct c
         end;
    injection Hget as <-;
    vm_compute in Hjson; try discriminate Hjson; injection Hjson as <-;
    vm_compute in Hiter; injection Hiter as <-;
    simpl in Hin;
    repeat (destruct Hin as [Hin|Hin];
            [try discriminate Hin; injection Hin as <-;
             vm_compute in Hn; try discriminate Hn; injection Hn as <-;
             reflexivity|]);
    contradiction.
Qed.


Lemma fetch_creates_target_first_witness :
  @fetch_repository ProjectDemo.pf 2 "octocat" "Hello-World" None
    EdgeDemo.occupied
  = (Raise (OSError "FileExistsError"),
     @log ProjectDemo.pf
       (EvMkdir "Hello-World" true true (Some (OSError "FileExistsError")))
       EdgeDemo.occupied) /\
  exists rest,
    trace (snd EdgeDemo.project_fetch)
    = []
      ++ EvMkdir "Hello-World" true true None
         :: EvPrint "Fetching repository octocat/Hello-World..."
         :: EvGet (Demo.api "") (headers Demo.client)
                  (Demo.ok_json (JArr ProjectDemo.root_items))
         :: rest.
Proof.
  split.
  - apply (proj1 (@fetch_creates_target_first ProjectDemo.pf 2%nat "octocat"
                    "Hello-World" None EdgeDemo.occupied)).
    reflexivity.
  - apply (proj2 (@fetch_creates_target_first ProjectDemo.pf 1%nat "octocat"
                    "Hello-World" None (Demo.start ProjectDemo.pf []))
             [("Hello-World", Demo.Dir)]).
    reflexivity.
Defined.

Lemma listing_that_is_no_array_witness :
  @_download_directory_contents EdgeDemo.single 1 "octocat" "Hello-World"
    "garbage" "Hello-World" (Demo.start EdgeDemo.single [])
  = (Raise JSONDecodeError,
     @log EdgeDemo.single (EvGet (Demo.api "garbage") (headers Demo.client)
            (Demo.ok_raw Demo.hello))
       (Demo.start EdgeDemo.single [])) /\
  @_download_directory_contents EdgeDemo.single 1 "octocat" "Hello-World"
    "README.md" "Hello-World" (Demo.start EdgeDemo.single [])
  = (Raise TypeError,
     @log EdgeDemo.single (EvGet (Demo.api "README.md") (headers Demo.client)
            (Demo.ok_json EdgeDemo.file_object))
       (Demo.start EdgeDemo.single [])).
Proof.
  split.
  - apply (proj1 (@listing_that_is_no_array EdgeDemo.single 0%nat "octocat"
                    "Hello-World" "garbage" "Hello-World"
                    (Demo.start EdgeDemo.single [])
                    {| status_code := 200; text := ""; content := Demo.hello;
                       json := inl JSONDecodeError |} eq_refl eq_refl)).
    reflexivity.
  - apply (proj2 (@listing_that_is_no_array EdgeDemo.single 0%nat "octocat"
                    "Hello-World" "README.md" "Hello-World"
                    (Demo.start EdgeDemo.single [])
                    {| status_code := 200; text := ""; content := [];
                       json := inr EdgeDemo.file_object |} eq_refl eq_refl)
             EdgeDemo.file_object).
    + reflexivity.
    + discriminate.
Defined.

Lemma file_without_size_is_written_witness :
  @process_item FileDemo.pf (@_download_directory_contents FileDemo.pf 0)
    "octocat" "Hello-World" "" "Hello-World" (JObj EdgeDemo.sizeless_fields)
    empty_listing FileDemo.checkout
  = (Raise (KeyError "size"),
     @mkState FileDemo.pf Demo.client
       [("Hello-World", Demo.Dir);
        ("Hello-World/README.md", Demo.File Demo.hello)]
       [ EvGet (Demo.raw "README.md") (headers Demo.client)
           (Demo.ok_raw Demo.hello);
         EvWriteBytes "Hello-World/README.md" Demo.hello None ]).
Proof.
  apply (@file_without_size_is_written FileDemo.pf
           (@_download_directory_contents FileDemo.pf 0)
           "octocat" "Hello-World" "" "Hello-World" EdgeDemo.sizeless_fields
           "README.md" empty_listing FileDemo.checkout Demo.hello
           (@log FileDemo.pf
              (EvGet (Demo.raw "README.md") (headers Demo.client)
                 (Demo.ok_raw Demo.hello)) FileDemo.checkout));
    reflexivity.
Defined.

Lemma other_entries_are_skipped_witness :
  @_download_directory_contents EdgeDemo.links 1 "octocat" "Hello-World" ""
    "Hello-World" (Demo.start EdgeDemo.links [])
  = (Ret (ListingResult [] []),
     @log EdgeDemo.links
       (EvGet (Demo.api "") (headers Demo.client)
          (Demo.ok_json (JArr [JObj EdgeDemo.link_fields;
                               JObj EdgeDemo.submodule_fields])))
       (Demo.start EdgeDemo.links [])).
Proof.
  apply (@other_entries_are_skipped EdgeDemo.links 0%nat "octocat"
           "Hello-World" "" "Hello-World" (Demo.start EdgeDemo.links [])
           {| status_code := 200; text := ""; content := [];
              json := inr (JArr [JObj EdgeDemo.link_fields;
                                 JObj EdgeDemo.submodule_fields]) |}
           [JObj EdgeDemo.link_fields; JObj EdgeDemo.submodule_fields]);
    reflexivity.
Defined.

Lemma inline_content_makes_no_request_witness :
  @_get_file_content FileDemo.pf (JObj FileDemo.hi_fields) FileDemo.checkout
  = (Ret (list_byte_of_string "hi"), FileDemo.checkout) /\
  @_get_file_content FileDemo.pf (JObj EdgeDemo.bare_fields) FileDemo.checkout
  = (Raise (KeyError "download_url"), FileDemo.checkout).
Proof.
  split.
  - apply (proj1 (@inline_content_makes_no_request FileDemo.pf
                    FileDemo.hi_fields FileDemo.checkout)).
    reflexivity.
  - apply (proj2 (@inline_content_makes_no_request FileDemo.pf
                    EdgeDemo.bare_fields FileDemo.checkout));
      reflexivity.
Defined.

Lemma error_result_means_failed_listing_witness :
  exists r,
    @listing_answer (FailedListingDemo.gone 404) []
      Demo.client "octocat" "Hello-World" "" = inr r /\
    status_code r <> 200 /\
    "gone" = text r /\
    fs (snd (FailedListingDemo.run 404)) = [].
Proof.
  apply (@error_result_means_failed_listing (FailedListingDemo.gone 404)
           1%nat "octocat" "Hello-World" "" "Hello-World"
           (Demo.start (FailedListingDemo.gone 404) [])
           "gone" (snd (FailedListingDemo.run 404))).
  reflexivity.
Defined.

Lemma result_records_of_listing_witness :
  exists dir_records,
    ListingResult [ProjectDemo.readme_record; ProjectDemo.license_record]
                  [ProjectDemo.docs_record; ProjectDemo.src_record]
    = ListingResult
        (@file_records_of ProjectDemo.pf "Hello-World" ProjectDemo.root_items)
        dir_records /\
    map (fun d => (dr_name d, dr_path d)) dir_records
    = @dir_heads_of ProjectDemo.pf "Hello-World" ProjectDemo.root_items.
Proof.
  apply (@result_records_of_listing ProjectDemo.pf 1 "octocat" "Hello-World"
           "" "Hello-World" ProjectDemo.checkout
           {| status_code := 200; text := ""; content := [];
              json := inr (JArr ProjectDemo.root_items) |}
           ProjectDemo.root_items _ (snd ProjectDemo.download));
    reflexivity.
Defined.

Lemma endless_is_endless : @endless_tree EdgeDemo.endless.
Proof.
  split.
  - intros history url hdrs. eexists _, _, _, _. repeat split.
  - intros files p. eexists. reflexivity.
Qed.

Lemma endless_tree_never_ends_witness :
  observed
    (fst (@_download_directory_contents EdgeDemo.endless 50 "octocat"
            "Hello-World" "" "Hello-World" (Demo.start EdgeDemo.endless [])))
  = inr RecursionError.
Proof.
  exact (@endless_tree_never_ends EdgeDemo.endless endless_is_endless 50%nat
           "octocat" "Hello-World" "" "Hello-World"
           (Demo.start EdgeDemo.endless [])).
Defined.

Lemma malformed_entry_ends_listing_witness :
  for_each ProjectDemo.body
    ([ProjectDemo.readme] ++ EdgeDemo.nameless :: [JObj ProjectDemo.src_fields])
    empty_listing ProjectDemo.checkout
  = (Raise (KeyError "name"), snd (ProjectDemo.loop [ProjectDemo.readme])).
Proof.
  apply (@malformed_entry_ends_listing ProjectDemo.pf
           (@_download_directory_contents ProjectDemo.pf 1)
           "octocat" "Hello-World" "" "Hello-World"
           [ProjectDemo.readme] EdgeDemo.nameless [JObj ProjectDemo.src_fields]
           empty_listing
           (ProjectDemo.listing_of (ProjectDemo.loop [ProjectDemo.readme]))
           ProjectDemo.checkout
           (snd (ProjectDemo.loop [ProjectDemo.readme]))
           (KeyError "name"));
    reflexivity.
Defined.
